(** * The [migrate] command of graphile-migrate: orchestration protocol

    Shallow embedding of [src/commands/migrate.ts].  The asynchronous
    functions [_migrate] and [migrate] are written in a small monad that
    threads the outside world (database, file system, hook processes),
    records every interaction in a trace of events, and propagates
    rejections.  [await e] is sequencing in that monad: the continuation
    runs only once the awaited promise has settled, and a rejection is
    rethrown at the [await].

    The trace holds the calls [migrate.ts] itself makes and the way each
    settles; what a collaborator does inside such a call is a transition
    of the world, not an event. *)

From Stdlib Require Import List String Bool Arith Lia DecimalString.
From Stdlib Require DecimalNat DecimalFacts.
Import ListNotations.
Open Scope string_scope.
Open Scope list_scope.

(** ** JavaScript values used by the command *)

(** A [string | undefined] value is falsy when it is [undefined] or the
    empty string. *)
Definition truthy (v : option string) : bool :=
  match v with
  | None => false
  | Some s => negb (String.eqb s "")
  end.

(** A parameter declared [p = false] takes the default when the argument
    is omitted. *)
Definition orFalse (arg : option bool) : bool :=
  match arg with
  | Some b => b
  | None => false
  end.

(** A truthy [string | undefined] value is a string. *)
Definition asString (v : option string) : string :=
  match v with
  | Some s => s
  | None => ""
  end.

(** Template-literal rendering of an array length. *)
Definition string_of_nat (n : nat) : string :=
  NilEmpty.string_of_uint (Nat.to_uint n).

(** The types declared in modules that [migrate.ts] only imports.  [Exn]
    is what a collaborator may reject with; [Rest] stands for the fields
    of the parsed settings that only the collaborators look at. *)
Record Types : Type := {
  World : Type;
  PgClient : Type;
  Context : Type;
  Migration : Type;
  ActionSpec : Type;
  Logger : Type;
  Settings : Type;
  Exn : Type;
  Rest : Type
}.

Section Migrate.

Variable T : Types.

(** The fields of [ParsedSettings] that [_migrate] reads. *)
Record ParsedSettings : Type := {
  connectionString : option string;
  shadowConnectionString : option string;
  beforeAllMigrations : list (ActionSpec T);
  afterAllMigrations : list (ActionSpec T);
  logger : Logger T;
  otherSettings : Rest T
}.

(** What can be thrown: the [Error] object built by [_migrate] itself, or
    whatever a collaborator rejected with. *)
Inductive Error : Type :=
| JsError (message : string)
| Thrown (x : Exn T).

(** The two call sites of [executeActions] (lines 44 and 61).  The tag
    labels the event only; the callee does not receive it. *)
Inductive HookPhase : Type := Before | After.

(** Calls that leave [migrate.ts], with their arguments. *)
Inductive Call : Type :=
| CParseSettings (settings : Settings T) (shadow : bool)
| CWithClient (connectionString : string) (parsedSettings : ParsedSettings)
| CWithAdvisoryLock (pgClient : PgClient T)
| CGetLastMigration (pgClient : PgClient T) (parsedSettings : ParsedSettings)
| CGetMigrationsAfter (parsedSettings : ParsedSettings)
    (lastMigration : option (Migration T))
| CExecuteActions (phase : HookPhase) (parsedSettings : ParsedSettings)
    (shadow : bool) (actions : list (ActionSpec T))
| CRunCommittedMigration (pgClient : PgClient T) (parsedSettings : ParsedSettings)
    (context : Context T) (migration : Migration T) (logSuffix : string)
| CLoggerInfo (logger : Logger T) (message : string).

Inductive Value : Type :=
| VUndefined
| VParsedSettings (parsedSettings : ParsedSettings)
| VLastMigration (lastMigration : option (Migration T))
| VMigrations (migrations : list (Migration T)).

Inductive Resource : Type :=
| Session (pgClient : PgClient T) (context : Context T)
| AdvisoryLock (pgClient : PgClient T).

Inductive Event : Type :=
| Called (c : Call)
| Returned (c : Call) (v : Value)
| Threw (c : Call) (e : Error)
| Acquired (r : Resource)
| Released (r : Resource).

(** ** The monad of asynchronous computations *)

Record Run (A : Type) : Type := {
  final : World T;
  events : list Event;
  outcome : Error + A
}.
Arguments final {A} _.
Arguments events {A} _.
Arguments outcome {A} _.

Definition M (A : Type) : Type := World T -> Run A.

Definition ret {A} (a : A) : M A :=
  fun w => {| final := w; events := []; outcome := inr a |}.

Definition throw {A} (e : Error) : M A :=
  fun w => {| final := w; events := []; outcome := inl e |}.

Definition bind {A B} (m : M A) (k : A -> M B) : M B :=
  fun w =>
    let r := m w in
    match outcome r with
    | inl e => {| final := final r; events := events r; outcome := inl e |}
    | inr a =>
        let r' := k a (final r) in
        {| final := final r';
           events := events r ++ events r';
           outcome := outcome r' |}
    end.

Notation "x <- m ;; k" := (bind m (fun x => k))
  (at level 100, m at next level, right associativity).
Notation "m ;;; k" := (bind m (fun _ => k))
  (at level 100, right associativity).

(** What an imported function does to the world: it resolves with a
    value or rejects. *)
Definition Ext (A : Type) : Type := World T -> World T * (Exn T + A).

(** Calling an imported function: the call and the way its promise
    settles are both recorded. *)
Definition external {A} (c : Call) (v : A -> Value) (f : Ext A) : M A :=
  fun w =>
    match f w with
    | (w', inr a) =>
        {| final := w'; events := [Called c; Returned c (v a)]; outcome := inr a |}
    | (w', inl x) =>
        {| final := w';
           events := [Called c; Threw c (Thrown x)];
           outcome := inl (Thrown x) |}
    end.

(** [for (const x of xs) { await f(x) }] *)
Fixpoint forOf {A} (xs : list A) (f : A -> M unit) : M unit :=
  match xs with
  | [] => ret tt
  | x :: rest => f x ;;; forOf rest f
  end.

(** [if (c) { await e }] *)
Definition when (c : bool) (m : M unit) : M unit :=
  if c then m else ret tt.

(** ** The collaborators *)

(** The imported modules ([../actions], [../migration], [../pg],
    [../pgReal], [../settings]) and the logger, as arbitrary transitions
    of the world that resolve or reject. *)
Record Collaborators : Type := {
  do_parseSettings : Settings T -> bool -> Ext ParsedSettings;
  do_connect : string -> ParsedSettings -> Ext (PgClient T * Context T);
  do_disconnect : PgClient T -> World T -> World T;
  do_lock : PgClient T -> Ext unit;
  do_unlock : PgClient T -> World T -> World T;
  do_getLastMigration : PgClient T -> ParsedSettings -> Ext (option (Migration T));
  do_getMigrationsAfter :
    ParsedSettings -> option (Migration T) -> Ext (list (Migration T));
  do_executeActions : ParsedSettings -> bool -> list (ActionSpec T) -> Ext unit;
  do_runCommittedMigration :
    PgClient T -> ParsedSettings -> Context T -> Migration T -> string -> Ext unit;
  do_info : Logger T -> string -> Ext unit
}.

Variable env : Collaborators.

Definition parseSettings (settings : Settings T) (shadow : bool) : M ParsedSettings :=
  external (CParseSettings settings shadow) VParsedSettings
    (do_parseSettings env settings shadow).

Definition getLastMigration (pgClient : PgClient T) (parsedSettings : ParsedSettings)
  : M (option (Migration T)) :=
  external (CGetLastMigration pgClient parsedSettings) VLastMigration
    (do_getLastMigration env pgClient parsedSettings).

Definition getMigrationsAfter (parsedSettings : ParsedSettings)
    (lastMigration : option (Migration T)) : M (list (Migration T)) :=
  external (CGetMigrationsAfter parsedSettings lastMigration) VMigrations
    (do_getMigrationsAfter env parsedSettings lastMigration).

Definition executeActions (phase : HookPhase) (parsedSettings : ParsedSettings)
    (shadow : bool) (actions : list (ActionSpec T)) : M unit :=
  external (CExecuteActions phase parsedSettings shadow actions)
    (fun _ => VUndefined)
    (do_executeActions env parsedSettings shadow actions).

Definition runCommittedMigration (pgClient : PgClient T)
    (parsedSettings : ParsedSettings) (context : Context T)
    (migration : Migration T) (logSuffix : string) : M unit :=
  external (CRunCommittedMigration pgClient parsedSettings context migration logSuffix)
    (fun _ => VUndefined)
    (do_runCommittedMigration env pgClient parsedSettings context migration logSuffix).

Definition logger_info (l : Logger T) (message : string) : M unit :=
  external (CLoggerInfo l message) (fun _ => VUndefined) (do_info env l message).

(** Settles a scoped call: the body's outcome is the call's outcome. *)
Definition settled (c : Call) (o : Error + unit) : list Event :=
  match o with
  | inr _ => [Returned c VUndefined]
  | inl e => [Threw c e]
  end.

(** Modelled from the spec: [withClient] of [../pg] is not part of the
    sources.  "Scoped acquisition of a database session bound to
    [connectionString]; guarantees release on all exit paths; supplies
    [body] a [(connection, context)] pair."  Failing to obtain the session
    rejects without running the body. *)
Definition withClient (connectionString : string) (parsedSettings : ParsedSettings)
    (body : PgClient T -> Context T -> M unit) : M unit :=
  fun w =>
    let c := CWithClient connectionString parsedSettings in
    match do_connect env connectionString parsedSettings w with
    | (w1, inl x) =>
        {| final := w1;
           events := [Called c; Threw c (Thrown x)];
           outcome := inl (Thrown x) |}
    | (w1, inr (pgClient, context)) =>
        let r := body pgClient context w1 in
        {| final := do_disconnect env pgClient (final r);
           events := [Called c; Acquired (Session pgClient context)]
                     ++ events r
                     ++ [Released (Session pgClient context)]
                     ++ settled c (outcome r);
           outcome := outcome r |}
    end.

(** Modelled from the spec: [withAdvisoryLock] of [../pgReal] is not part
    of the sources.  It "acquires a named, database-scoped
    mutual-exclusion lock tied to the connection's session before invoking
    [body], and guarantees release on every exit path of [body], including
    thrown/propagated errors."  Failing to establish the lock rejects
    without running the body. *)
Definition withAdvisoryLock (pgClient : PgClient T) (body : M unit) : M unit :=
  fun w =>
    let c := CWithAdvisoryLock pgClient in
    match do_lock env pgClient w with
    | (w1, inl x) =>
        {| final := w1;
           events := [Called c; Threw c (Thrown x)];
           outcome := inl (Thrown x) |}
    | (w1, inr _) =>
        let r := body w1 in
        {| final := do_unlock env pgClient (final r);
           events := [Called c; Acquired (AdvisoryLock pgClient)]
                     ++ events r
                     ++ [Released (AdvisoryLock pgClient)]
                     ++ settled c (outcome r);
           outcome := outcome r |}
    end.

(** ** The command *)

(** The text of the status line (lines 68-74). *)
Definition statusLine (logSuffix : string) (remainingMigrations : list (Migration T))
    (lastMigration : option (Migration T)) : string :=
  ("graphile-migrate" ++ logSuffix ++ ": " ++
   (if (0 <? List.length remainingMigrations)%nat
    then string_of_nat (List.length remainingMigrations)
         ++ " committed migrations executed"
    else match lastMigration with
         | Some _ => "Already up to date"
         | None => "Up to date — no committed migrations to run"
         end))%string.

(** The callback given to [withAdvisoryLock] (lines 35-76). *)
Definition lockedWork (parsedSettings : ParsedSettings) (shadow forceActions : bool)
    (logSuffix : string) (pgClient : PgClient T) (context : Context T) : M unit :=
  lastMigration <- getLastMigration pgClient parsedSettings ;;
  remainingMigrations <- getMigrationsAfter parsedSettings lastMigration ;;
  let shouldExecuteActions :=
    (0 <? List.length remainingMigrations)%nat || forceActions in
  when shouldExecuteActions
    (executeActions Before parsedSettings shadow
       (beforeAllMigrations parsedSettings)) ;;;
  forOf remainingMigrations (fun migration =>
    runCommittedMigration pgClient parsedSettings context migration logSuffix) ;;;
  when shouldExecuteActions
    (executeActions After parsedSettings shadow
       (afterAllMigrations parsedSettings)) ;;;
  logger_info (logger parsedSettings)
    (statusLine logSuffix remainingMigrations lastMigration).

(** [_migrate] (lines 19-79). *)
Definition _migrate (parsedSettings : ParsedSettings)
    (shadow_arg forceActions_arg : option bool) : M unit :=
  let shadow := orFalse shadow_arg in
  let forceActions := orFalse forceActions_arg in
  let connectionString :=
    if shadow
    then shadowConnectionString parsedSettings
    else connectionString parsedSettings in
  if negb (truthy connectionString)
  then throw (JsError "Could not determine connection string")
  else
    let logSuffix := if shadow then "[shadow]" else "" in
    withClient (asString connectionString) parsedSettings
      (fun pgClient context =>
         withAdvisoryLock pgClient
           (lockedWork parsedSettings shadow forceActions logSuffix
              pgClient context)).

(** [migrate] (lines 81-88). *)
Definition migrate (settings : Settings T)
    (shadow_arg forceActions_arg : option bool) : M unit :=
  let shadow := orFalse shadow_arg in
  let forceActions := orFalse forceActions_arg in
  parsedSettings <- parseSettings settings shadow ;;
  _migrate parsedSettings (Some shadow) (Some forceActions).

(** The runner rejected with [x] when called on migration [m]. *)
Definition raisedFor (m : Migration T) (x : Exn T) : Prop :=
  exists pgClient parsedSettings context logSuffix w w',
    do_runCommittedMigration env pgClient parsedSettings context m logSuffix w
    = (w', inl x).

(** Modelled from the spec: [runCommittedMigration] of [../migration] is
    not part of the sources.  "On failure, it fails with a RunnerError
    carrying the offending descriptor's identity": [identity] reads that
    identity off an error. *)
Definition carriesIdentity (identity : Exn T -> option (Migration T)) : Prop :=
  forall m x, raisedFor m x -> identity x = Some m.

(** What claim C10 says [migrate] amounts to: [parseSettings] is called
    first, with [settings] and [shadow]; if it rejects, so does [migrate];
    otherwise [_migrate] runs on its result with the same [shadow] and
    [forceActions]. *)
Definition parseThenMigrate (settings : Settings T)
    (shadow forceActions : bool) : M unit :=
  fun w =>
    let c := CParseSettings settings shadow in
    match do_parseSettings env settings shadow w with
    | (w', inl x) =>
        {| final := w';
           events := [Called c; Threw c (Thrown x)];
           outcome := inl (Thrown x) |}
    | (w', inr parsedSettings) =>
        let r := _migrate parsedSettings (Some shadow) (Some forceActions) w' in
        {| final := final r;
           events := [Called c; Returned c (VParsedSettings parsedSettings)]
                     ++ events r;
           outcome := outcome r |}
    end.

(** ** Reading a trace *)

Definition isHookCall (phase : HookPhase) (e : Event) : bool :=
  match e, phase with
  | Called (CExecuteActions Before _ _ _), Before => true
  | Called (CExecuteActions After _ _ _), After => true
  | _, _ => false
  end.

(** Was [executeActions] invoked at the given call site? *)
Definition hookInvoked (phase : HookPhase) (tr : list Event) : bool :=
  existsb (isHookCall phase) tr.

(** Did the [executeActions] call of the given call site reject? *)
Definition hookFailed (phase : HookPhase) (tr : list Event) : bool :=
  existsb (fun e =>
    match e, phase with
    | Threw (CExecuteActions Before _ _ _) _, Before => true
    | Threw (CExecuteActions After _ _ _) _, After => true
    | _, _ => false
    end) tr.

(** Every [executeActions] call, whatever its call site. *)
Definition hookCalls (tr : list Event) : list HookPhase :=
  flat_map (fun e =>
    match e with
    | Called (CExecuteActions phase _ _ _) => [phase]
    | _ => []
    end) tr.

(** The migrations [runCommittedMigration] was called on, in call order. *)
Definition attempted (tr : list Event) : list (Migration T) :=
  flat_map (fun e =>
    match e with
    | Called (CRunCommittedMigration _ _ _ m _) => [m]
    | _ => []
    end) tr.

(** The migrations whose [runCommittedMigration] call resolved. *)
Definition applied (tr : list Event) : list (Migration T) :=
  flat_map (fun e =>
    match e with
    | Returned (CRunCommittedMigration _ _ _ m _) _ => [m]
    | _ => []
    end) tr.

(** The batches [getMigrationsAfter] resolved with. *)
Definition batches (tr : list Event) : list (list (Migration T)) :=
  flat_map (fun e =>
    match e with
    | Returned (CGetMigrationsAfter _ _) (VMigrations ms) => [ms]
    | _ => []
    end) tr.

(** The pending batch of the run, when [getMigrationsAfter] returned one. *)
Definition pendingBatch (tr : list Event) : option (list (Migration T)) :=
  hd_error (batches tr).

(** The markers [getLastMigration] resolved with. *)
Definition markers (tr : list Event) : list (option (Migration T)) :=
  flat_map (fun e =>
    match e with
    | Returned (CGetLastMigration _ _) (VLastMigration last) => [last]
    | _ => []
    end) tr.

(** The messages passed to [logger.info]. *)
Definition statusLines (tr : list Event) : list string :=
  flat_map (fun e =>
    match e with
    | Called (CLoggerInfo _ message) => [message]
    | _ => []
    end) tr.

Definition callOf (e : Event) : option Call :=
  match e with
  | Called c | Returned c _ | Threw c _ => Some c
  | Acquired _ | Released _ => None
  end.

(** Events of [runCommittedMigration]. *)
Definition isRunner (e : Event) : bool :=
  match callOf e with
  | Some (CRunCommittedMigration _ _ _ _ _) => true
  | _ => false
  end.

(** Events of [executeActions]. *)
Definition isHook (e : Event) : bool :=
  match callOf e with
  | Some (CExecuteActions _ _ _ _) => true
  | _ => false
  end.

(** Events of the ledger reads. *)
Definition isLedger (e : Event) : bool :=
  match callOf e with
  | Some (CGetLastMigration _ _) | Some (CGetMigrationsAfter _ _) => true
  | _ => false
  end.

(** Migration work: ledger reads, hook phases, migrations. *)
Definition isWork (e : Event) : bool :=
  isLedger e || isHook e || isRunner e.

Definition isLog (e : Event) : bool :=
  match callOf e with
  | Some (CLoggerInfo _ _) => true
  | _ => false
  end.

(** Entering and leaving [withClient]: the connection is acquired and
    released. *)
Definition isSession (e : Event) : bool :=
  match e with
  | Acquired (Session _ _) | Released (Session _ _) => true
  | _ =>
      match callOf e with
      | Some (CWithClient _ _) => true
      | _ => false
      end
  end.

(** Entering and leaving [withAdvisoryLock]: the lock is acquired and
    released. *)
Definition isLock (e : Event) : bool :=
  match e with
  | Acquired (AdvisoryLock _) | Released (AdvisoryLock _) => true
  | _ =>
      match callOf e with
      | Some (CWithAdvisoryLock _) => true
      | _ => false
      end
  end.

Definition isScope (e : Event) : bool :=
  isSession e || isLock e.

(** The connection strings [withClient] was called with. *)
Definition connections (tr : list Event) : list string :=
  flat_map (fun e =>
    match e with
    | Called (CWithClient connectionString _) => [connectionString]
    | _ => []
    end) tr.

(** Did a ledger read reject? *)
Definition ledgerFailed (tr : list Event) : bool :=
  existsb (fun e =>
    match e with
    | Threw (CGetLastMigration _ _) _ | Threw (CGetMigrationsAfter _ _) _ => true
    | _ => false
    end) tr.

(** How each [runCommittedMigration] call settled, in order: the
    migration, and what the call rejected with if it did. *)
Definition runnerOutcomes (tr : list Event)
  : list (Migration T * option Error) :=
  flat_map (fun e =>
    match e with
    | Returned (CRunCommittedMigration _ _ _ m _) _ => [(m, None)]
    | Threw (CRunCommittedMigration _ _ _ m _) err => [(m, Some err)]
    | _ => []
    end) tr.

(** What the [executeActions] call of a call site rejected with. *)
Definition hookErrors (phase : HookPhase) (tr : list Event) : list Error :=
  flat_map (fun e =>
    match e, phase with
    | Threw (CExecuteActions Before _ _ _) err, Before => [err]
    | Threw (CExecuteActions After _ _ _) err, After => [err]
    | _, _ => []
    end) tr.

(** What the ledger reads rejected with. *)
Definition ledgerErrors (tr : list Event) : list Error :=
  flat_map (fun e =>
    match e with
    | Threw (CGetLastMigration _ _) err
    | Threw (CGetMigrationsAfter _ _) err => [err]
    | _ => []
    end) tr.

(** The runner's events form a series: each call has settled before the
    next one is made, and nothing is called after a rejection. *)
Inductive Serial : list (Migration T) -> list Event -> Prop :=
| Serial_done : Serial [] []
| Serial_applied pgClient parsedSettings context m logSuffix ms tr :
    Serial ms tr ->
    Serial (m :: ms)
      (Called (CRunCommittedMigration pgClient parsedSettings context m logSuffix)
       :: Returned
            (CRunCommittedMigration pgClient parsedSettings context m logSuffix)
            VUndefined
       :: tr)
| Serial_failed pgClient parsedSettings context m logSuffix err :
    Serial [m]
      [Called (CRunCommittedMigration pgClient parsedSettings context m logSuffix);
       Threw (CRunCommittedMigration pgClient parsedSettings context m logSuffix)
         err].

(** Every work event lies between acquiring and releasing the advisory
    lock, the lock is held only while the session is, and both are given
    back by the end: a scan of the trace that tracks which of the two is
    held. *)
Fixpoint scoped (session lock : bool) (tr : list Event) : bool :=
  match tr with
  | [] => negb session && negb lock
  | Acquired (Session _ _) :: tr' =>
      negb session && negb lock && scoped true lock tr'
  | Released (Session _ _) :: tr' =>
      session && negb lock && scoped false lock tr'
  | Acquired (AdvisoryLock _) :: tr' =>
      session && negb lock && scoped session true tr'
  | Released (AdvisoryLock _) :: tr' =>
      session && lock && scoped session false tr'
  | e :: tr' =>
      (if isWork e then lock else true) && scoped session lock tr'
  end.

(** ** The paths through [_migrate]

    A run is classified by the statement at which it stopped.  Each path
    determines the trace and the outcome of the run. *)

Section Paths.

Variables (parsedSettings : ParsedSettings) (shadow forceActions : bool).

Let selected : string :=
  asString (if shadow
            then shadowConnectionString parsedSettings
            else connectionString parsedSettings).
Let logSuffix : string := if shadow then "[shadow]" else "".

(** Paths through the callback of [withAdvisoryLock]. *)
Inductive WorkPath : Type :=
| LastMigrationFailed (x : Exn T)
| MigrationsAfterFailed (last : option (Migration T)) (x : Exn T)
| BeforeFailed (last : option (Migration T)) (batch : list (Migration T))
    (x : Exn T)
| MigrationFailed (last : option (Migration T))
    (done : list (Migration T)) (failing : Migration T)
    (rest : list (Migration T)) (x : Exn T)
| AfterFailed (last : option (Migration T)) (batch : list (Migration T))
    (x : Exn T)
| Reported (last : option (Migration T)) (batch : list (Migration T))
    (logged : Exn T + unit).

Inductive LockPath : Type :=
| LockFailed (x : Exn T)
| Locked (work : WorkPath).

Inductive RunPath : Type :=
| NoConnectionString
| ConnectFailed (x : Exn T)
| Connected (pgClient : PgClient T) (context : Context T) (inner : LockPath).

Definition shouldExecute (batch : list (Migration T)) : bool :=
  (0 <? List.length batch)%nat || forceActions.

(** A path is taken only if the hook phase it fails in is entered. *)
Definition feasible (p : WorkPath) : bool :=
  match p with
  | BeforeFailed _ batch _ | AfterFailed _ batch _ => shouldExecute batch
  | _ => true
  end.

Definition resolved (c : Call) (v : Value) : list Event :=
  [Called c; Returned c v].

Definition rejected (c : Call) (x : Exn T) : list Event :=
  [Called c; Threw c (Thrown x)].

Definition either (c : Call) (o : Exn T + unit) : list Event :=
  match o with
  | inr _ => resolved c VUndefined
  | inl x => rejected c x
  end.

Section Work.

Variables (pgClient : PgClient T) (context : Context T).

Definition callRunner (m : Migration T) : Call :=
  CRunCommittedMigration pgClient parsedSettings context m logSuffix.

Definition callHook (phase : HookPhase) : Call :=
  CExecuteActions phase parsedSettings shadow
    (match phase with
     | Before => beforeAllMigrations parsedSettings
     | After => afterAllMigrations parsedSettings
     end).

Definition ranAll (ms : list (Migration T)) : list Event :=
  flat_map (fun m => resolved (callRunner m) VUndefined) ms.

Definition ranHook (phase : HookPhase) (batch : list (Migration T)) : list Event :=
  if shouldExecute batch then resolved (callHook phase) VUndefined else [].

Definition ledgerRead (last : option (Migration T))
    (batch : list (Migration T)) : list Event :=
  resolved (CGetLastMigration pgClient parsedSettings) (VLastMigration last)
  ++ resolved (CGetMigrationsAfter parsedSettings last) (VMigrations batch).

Definition workTrace (p : WorkPath) : list Event :=
  match p with
  | LastMigrationFailed x =>
      rejected (CGetLastMigration pgClient parsedSettings) x
  | MigrationsAfterFailed last x =>
      resolved (CGetLastMigration pgClient parsedSettings) (VLastMigration last)
      ++ rejected (CGetMigrationsAfter parsedSettings last) x
  | BeforeFailed last batch x =>
      ledgerRead last batch ++ rejected (callHook Before) x
  | MigrationFailed last done failing rest x =>
      ledgerRead last (done ++ failing :: rest)
      ++ ranHook Before (done ++ failing :: rest)
      ++ ranAll done ++ rejected (callRunner failing) x
  | AfterFailed last batch x =>
      ledgerRead last batch ++ ranHook Before batch ++ ranAll batch
      ++ rejected (callHook After) x
  | Reported last batch logged =>
      ledgerRead last batch ++ ranHook Before batch ++ ranAll batch
      ++ ranHook After batch
      ++ either (CLoggerInfo (logger parsedSettings)
                   (statusLine logSuffix batch last)) logged
  end.

Definition workOutcome (p : WorkPath) : Error + unit :=
  match p with
  | LastMigrationFailed x | MigrationsAfterFailed _ x | BeforeFailed _ _ x
  | MigrationFailed _ _ _ _ x | AfterFailed _ _ x => inl (Thrown x)
  | Reported _ _ (inl x) => inl (Thrown x)
  | Reported _ _ (inr _) => inr tt
  end.

(** Where the error of a failed migration comes from: the runner
    rejected with it when called on the failing migration. *)
Definition raisedBy (p : WorkPath) : Prop :=
  match p with
  | MigrationFailed _ _ failing _ x =>
      exists w w',
        do_runCommittedMigration env pgClient parsedSettings context failing
          logSuffix w = (w', inl x)
  | _ => True
  end.

Definition lockOutcome (p : LockPath) : Error + unit :=
  match p with
  | LockFailed x => inl (Thrown x)
  | Locked work => workOutcome work
  end.

Definition lockTrace (p : LockPath) : list Event :=
  match p with
  | LockFailed x => rejected (CWithAdvisoryLock pgClient) x
  | Locked work =>
      [Called (CWithAdvisoryLock pgClient); Acquired (AdvisoryLock pgClient)]
      ++ workTrace work
      ++ [Released (AdvisoryLock pgClient)]
      ++ settled (CWithAdvisoryLock pgClient) (workOutcome work)
  end.

End Work.

Definition runOutcome (p : RunPath) : Error + unit :=
  match p with
  | NoConnectionString => inl (JsError "Could not determine connection string")
  | ConnectFailed x => inl (Thrown x)
  | Connected _ _ inner => lockOutcome inner
  end.

Definition runTrace (p : RunPath) : list Event :=
  match p with
  | NoConnectionString => []
  | ConnectFailed x => rejected (CWithClient selected parsedSettings) x
  | Connected pgClient context inner =>
      [Called (CWithClient selected parsedSettings);
       Acquired (Session pgClient context)]
      ++ lockTrace pgClient context inner
      ++ [Released (Session pgClient context)]
      ++ settled (CWithClient selected parsedSettings) (lockOutcome inner)
  end.

Definition raisedInRun (p : RunPath) : Prop :=
  match p with
  | Connected pgClient context (Locked work) => raisedBy pgClient context work
  | _ => True
  end.

Definition feasibleRun (p : RunPath) : bool :=
  match p with
  | NoConnectionString =>
      negb (truthy (if shadow
                    then shadowConnectionString parsedSettings
                    else connectionString parsedSettings))
  | ConnectFailed _ | Connected _ _ (LockFailed _) =>
      truthy (if shadow
              then shadowConnectionString parsedSettings
              else connectionString parsedSettings)
  | Connected _ _ (Locked work) =>
      truthy (if shadow
              then shadowConnectionString parsedSettings
              else connectionString parsedSettings)
      && feasible work
  end.

End Paths.

End Migrate.

Arguments Build_ParsedSettings {T}.
Arguments connectionString {T}.
Arguments shadowConnectionString {T}.
Arguments beforeAllMigrations {T}.
Arguments afterAllMigrations {T}.
Arguments logger {T}.
Arguments otherSettings {T}.
Arguments JsError {T}.
Arguments Thrown {T}.
Arguments CParseSettings {T}.
Arguments CWithClient {T}.
Arguments CWithAdvisoryLock {T}.
Arguments CGetLastMigration {T}.
Arguments CGetMigrationsAfter {T}.
Arguments CExecuteActions {T}.
Arguments CRunCommittedMigration {T}.
Arguments CLoggerInfo {T}.
Arguments VUndefined {T}.
Arguments VParsedSettings {T}.
Arguments VLastMigration {T}.
Arguments VMigrations {T}.
Arguments Session {T}.
Arguments AdvisoryLock {T}.
Arguments Called {T}.
Arguments Returned {T}.
Arguments Threw {T}.
Arguments Acquired {T}.
Arguments Released {T}.
Arguments Build_Run {T A}.
Arguments final {T A}.
Arguments events {T A}.
Arguments outcome {T A}.
Arguments ret {T A}.
Arguments throw {T A}.
Arguments bind {T A B}.
Arguments external {T A}.
Arguments forOf {T A}.
Arguments when {T}.
Arguments Build_Collaborators {T}.
Arguments do_parseSettings {T}.
Arguments do_connect {T}.
Arguments do_disconnect {T}.
Arguments do_lock {T}.
Arguments do_unlock {T}.
Arguments do_getLastMigration {T}.
Arguments do_getMigrationsAfter {T}.
Arguments do_executeActions {T}.
Arguments do_runCommittedMigration {T}.
Arguments do_info {T}.
Arguments parseSettings {T}.
Arguments getLastMigration {T}.
Arguments getMigrationsAfter {T}.
Arguments executeActions {T}.
Arguments runCommittedMigration {T}.
Arguments logger_info {T}.
Arguments settled {T}.
Arguments withClient {T}.
Arguments withAdvisoryLock {T}.
Arguments statusLine {T}.
Arguments lockedWork {T}.
Arguments _migrate {T}.
Arguments migrate {T}.
Arguments isHookCall {T}.
Arguments hookInvoked {T}.
Arguments hookFailed {T}.
Arguments hookCalls {T}.
Arguments attempted {T}.
Arguments applied {T}.
Arguments batches {T}.
Arguments pendingBatch {T}.
Arguments markers {T}.
Arguments statusLines {T}.
Arguments callOf {T}.
Arguments isRunner {T}.
Arguments isHook {T}.
Arguments isLedger {T}.
Arguments isWork {T}.
Arguments isLog {T}.
Arguments isSession {T}.
Arguments isLock {T}.
Arguments isScope {T}.
Arguments scoped {T}.
Arguments connections {T}.
Arguments parseThenMigrate {T}.
Arguments raisedFor {T}.
Arguments carriesIdentity {T}.
Arguments ledgerFailed {T}.
Arguments runnerOutcomes {T}.
Arguments hookErrors {T}.
Arguments ledgerErrors {T}.
Arguments Serial {T}.
Arguments Serial_done {T}.
Arguments Serial_applied {T}.
Arguments Serial_failed {T}.
Arguments LastMigrationFailed {T}.
Arguments MigrationsAfterFailed {T}.
Arguments BeforeFailed {T}.
Arguments MigrationFailed {T}.
Arguments AfterFailed {T}.
Arguments Reported {T}.
Arguments LockFailed {T}.
Arguments Locked {T}.
Arguments NoConnectionString {T}.
Arguments ConnectFailed {T}.
Arguments Connected {T}.
Arguments shouldExecute {T}.
Arguments feasible {T}.
Arguments resolved {T}.
Arguments rejected {T}.
Arguments either {T}.
Arguments callRunner {T}.
Arguments callHook {T}.
Arguments ranAll {T}.
Arguments ranHook {T}.
Arguments ledgerRead {T}.
Arguments workTrace {T}.
Arguments workOutcome {T}.
Arguments lockOutcome {T}.
Arguments lockTrace {T}.
Arguments runOutcome {T}.
Arguments runTrace {T}.
Arguments feasibleRun {T}.
Arguments raisedBy {T}.
Arguments raisedInRun {T}.

(** ** A concrete target

    A small world to run the command in: a catalog of numbered
    migrations, a ledger holding the last applied number, migrations that
    fail to apply, hook commands that exit non-zero. *)
Module Demo.

Inductive Failure : Type :=
| ConnectionRefused
| LockLost
| LedgerMissing
| LedgerDiverged (marker : nat)
| HookFailed (command : string)
| MigrationError (id : nat)
| InvalidSettings
| LoggerClosed.

Record Database : Type := {
  reachable : bool;
  lockable : bool;
  bootstrapped : bool;
  marker : option nat;
  catalog : list nat;
  broken : list nat
}.

Definition T : Types := {|
  World := Database;
  PgClient := string;
  Context := unit;
  Migration := nat;
  ActionSpec := string;
  Logger := bool;
  Settings := option string * option string * (list string * list string);
  Exn := Failure;
  Rest := unit
|}.

Definition setMarker (m : nat) (db : Database) : Database :=
  {| reachable := reachable db;
     lockable := lockable db;
     bootstrapped := bootstrapped db;
     marker := Some m;
     catalog := catalog db;
     broken := broken db |}.

Definition env : Collaborators T := {|
  do_parseSettings := fun (settings : Settings T) (_ : bool) (db : World T) =>
    match settings with
    | (None, _, _) => (db, inl InvalidSettings)
    | (Some cs, shadowCs, (before, after)) =>
        (db, inr (@Build_ParsedSettings T (Some cs) shadowCs before after true tt))
    end;
  do_connect := fun cs _ (db : World T) =>
    if reachable db then (db, inr (cs, tt)) else (db, inl ConnectionRefused);
  do_disconnect := fun _ db => db;
  do_lock := fun _ (db : World T) =>
    if lockable db then (db, inr tt) else (db, inl LockLost);
  do_unlock := fun _ db => db;
  do_getLastMigration := fun _ _ (db : World T) =>
    if bootstrapped db then (db, inr (marker db)) else (db, inl LedgerMissing);
  do_getMigrationsAfter := fun _ last (db : World T) =>
    match last with
    | None => (db, inr (catalog db))
    | Some m =>
        if existsb (Nat.eqb m) (catalog db)
        then (db, inr (filter (fun id => m <? id)%nat (catalog db)))
        else (db, inl (LedgerDiverged m))
    end;
  do_executeActions := fun _ _ actions (db : World T) =>
    match find (String.eqb "exit 1") actions with
    | Some command => (db, inl (HookFailed command))
    | None => (db, inr tt)
    end;
  do_runCommittedMigration := fun _ _ _ m _ (db : World T) =>
    if existsb (Nat.eqb m) (broken db)
    then (db, inl (MigrationError m))
    else (setMarker m db, inr tt);
  do_info := fun (l : Logger T) _ (db : World T) =>
    if l then (db, inr tt) else (db, inl LoggerClosed)
|}.

Definition settings (before after : list string) : ParsedSettings T :=
  @Build_ParsedSettings T
    (Some "postgres:///app") (Some "postgres:///app_shadow") before after true tt.

(** A settings object without a shadow database. *)
Definition noShadow : ParsedSettings T :=
  @Build_ParsedSettings T (Some "postgres:///app") None [] [] true tt.

(** The migration a runner error names. *)
Definition identity (x : Exn T) : option (Migration T) :=
  match x with
  | MigrationError id => Some id
  | _ => None
  end.

Definition database (last : option nat) (all bad : list nat) : Database :=
  {| reachable := true;
     lockable := true;
     bootstrapped := true;
     marker := last;
     catalog := all;
     broken := bad |}.

End Demo.

(** * The rest of [migrate.ts] *)

(** ** More readers of a trace *)

Section MoreReaders.

Variable T : Types.

(** The hook phases and the migrations, in the order they are called. *)
Definition steps (tr : list (Event T)) : list (HookPhase + Migration T) :=
  flat_map (fun e =>
    match e with
    | Called (CExecuteActions phase _ _ _) => [inl phase]
    | Called (CRunCommittedMigration _ _ _ m _) => [inr m]
    | _ => []
    end) tr.

(** The markers [getMigrationsAfter] was called with. *)
Definition queried (tr : list (Event T)) : list (option (Migration T)) :=
  flat_map (fun e =>
    match e with
    | Called (CGetMigrationsAfter _ last) => [last]
    | _ => []
    end) tr.

(** The sessions [withClient] handed to its callback. *)
Definition sessions (tr : list (Event T)) : list (PgClient T * Context T) :=
  flat_map (fun e =>
    match e with
    | Acquired (Session pgClient context) => [(pgClient, context)]
    | _ => []
    end) tr.

(** Was the advisory lock ever acquired? *)
Definition lockHeld (tr : list (Event T)) : bool :=
  existsb (fun e =>
    match e with
    | Acquired (AdvisoryLock _) => true
    | _ => false
    end) tr.

(** What [logger.info] rejected with. *)
Definition logErrors (tr : list (Event T)) : list (Error T) :=
  flat_map (fun e =>
    match e with
    | Threw (CLoggerInfo _ _) err => [err]
    | _ => []
    end) tr.

(** The calls of the run that rejected, scopes included, each with its
    error, in the order they settled. *)
Definition rejections (tr : list (Event T)) : list (Call T * Error T) :=
  flat_map (fun e =>
    match e with
    | Threw c err => [(c, err)]
    | _ => []
    end) tr.

(** A rejection of a scope that only passes on what its callback
    rejected with. *)
Definition passedOn (err : Error T) (rejection : Call T * Error T) : Prop :=
  snd rejection = err
  /\ match fst rejection with
     | CWithClient _ _ | CWithAdvisoryLock _ => True
     | _ => False
     end.

(** The settings [parseSettings] resolved with. *)
Definition parsed (tr : list (Event T)) : list (ParsedSettings T) :=
  flat_map (fun e =>
    match e with
    | Returned (CParseSettings _ _) (VParsedSettings parsedSettings) =>
        [parsedSettings]
    | _ => []
    end) tr.

(** The arguments [parseSettings] was called with. *)
Definition parseCalls (tr : list (Event T)) : list (Settings T * bool) :=
  flat_map (fun e =>
    match e with
    | Called (CParseSettings settings shadow) => [(settings, shadow)]
    | _ => []
    end) tr.

(** The arguments [withClient] was called with. *)
Definition clientCalls (tr : list (Event T)) : list (string * ParsedSettings T) :=
  flat_map (fun e =>
    match e with
    | Called (CWithClient connectionString parsedSettings) =>
        [(connectionString, parsedSettings)]
    | _ => []
    end) tr.

(** A call made by [_migrate] carries the arguments the source gives it:
    the settings of the run everywhere; the selected connection string
    for [withClient]; the connection and context that [withClient]
    supplied ([held]) for the lock, the ledger and the runner; the
    [shadow] flag and the action list of its phase for the hooks; the log
    suffix of the target for the runner; the logger of the settings for
    the status line.  [_migrate] does not call [parseSettings]. *)
Definition addressed (parsedSettings : ParsedSettings T) (shadow : bool)
    (held : list (PgClient T * Context T)) (e : Event T) : Prop :=
  match e with
  | Called (CParseSettings _ _) => False
  | Called (CWithClient selected settings) =>
      settings = parsedSettings
      /\ selected
         = asString (if shadow
                     then shadowConnectionString parsedSettings
                     else connectionString parsedSettings)
  | Called (CWithAdvisoryLock pgClient) =>
      exists context, held = [(pgClient, context)]
  | Called (CGetLastMigration pgClient settings) =>
      settings = parsedSettings /\ exists context, held = [(pgClient, context)]
  | Called (CGetMigrationsAfter settings _) => settings = parsedSettings
  | Called (CExecuteActions phase settings flag actions) =>
      settings = parsedSettings /\ flag = shadow
      /\ actions = match phase with
                   | Before => beforeAllMigrations parsedSettings
                   | After => afterAllMigrations parsedSettings
                   end
  | Called (CRunCommittedMigration pgClient settings context _ logSuffix) =>
      settings = parsedSettings /\ held = [(pgClient, context)]
      /\ logSuffix = (if shadow then "[shadow]" else "")
  | Called (CLoggerInfo l _) => l = logger parsedSettings
  | _ => True
  end.

End MoreReaders.

Arguments steps {T}.
Arguments queried {T}.
Arguments sessions {T}.
Arguments lockHeld {T}.
Arguments logErrors {T}.
Arguments rejections {T}.
Arguments passedOn {T}.
Arguments parsed {T}.
Arguments parseCalls {T}.
Arguments clientCalls {T}.
Arguments addressed {T}.

(** ** The command module *)

(** [MigrateArgv]: [config] comes from [CommonArgv]. *)
Module Argv.

Record t : Type := {
  config : option string;
  shadow : bool;
  forceActions : bool
}.

End Argv.

(** An entry of the [builder] object. *)
Record OptionSpec : Type := {
  type : string;
  default : bool;
  description : string
}.

Section Command.

Variable T : Types.
Variable env : Collaborators T.

(** [getSettings] of [./_common], called with [{ configFile }]. *)
Variable do_getSettings : option string -> Ext T (Settings T).

(** What the handler does: the [getSettings] call, then the events of
    [migrate]. *)
Inductive CommandEvent : Type :=
| SettingsCalled (configFile : option string)
| SettingsReturned (configFile : option string) (settings : Settings T)
| SettingsThrew (configFile : option string) (e : Error T)
| Migrating (e : Event T).

Record CommandRun : Type := {
  commandFinal : World T;
  commandEvents : list CommandEvent;
  commandOutcome : Error T + unit
}.

(** [handler] (lines 108-114):
    [await migrate(await getSettings({ configFile: argv.config }),
                   argv.shadow, argv.forceActions)]. *)
Definition handler (argv : Argv.t) (w : World T) : CommandRun :=
  let configFile := Argv.config argv in
  match do_getSettings configFile w with
  | (w', inl x) =>
      {| commandFinal := w';
         commandEvents := [SettingsCalled configFile;
                           SettingsThrew configFile (Thrown x)];
         commandOutcome := inl (Thrown x) |}
  | (w', inr settings) =>
      let r := migrate env settings (Some (Argv.shadow argv))
                 (Some (Argv.forceActions argv)) w' in
      {| commandFinal := final r;
         commandEvents := [SettingsCalled configFile;
                           SettingsReturned configFile settings]
                          ++ map Migrating (events r);
         commandOutcome := outcome r |}
  end.

Record CommandModule : Type := {
  command : string;
  aliases : list string;
  describe : string;
  builder : list (string * OptionSpec);
  commandHandler : Argv.t -> World T -> CommandRun
}.

(** [migrateCommand] (lines 90-115). *)
Definition migrateCommand : CommandModule := {|
  command := "migrate";
  aliases := [];
  describe := "Runs any un-executed committed migrations. Does NOT run the current migration. For use in production and development.";
  builder :=
    [("shadow",
      {| type := "boolean";
         default := false;
         description := "Apply migrations to the shadow DB (for development)." |});
     ("forceActions",
      {| type := "boolean";
         default := false;
         description := "Run beforeAllMigrations and afterAllMigrations actions even if no migration was necessary." |})];
  commandHandler := handler
|}.

(** The events of [migrate] within a command run. *)
Definition migrating (ces : list CommandEvent) : list (Event T) :=
  flat_map (fun ce =>
    match ce with
    | Migrating e => [e]
    | _ => []
    end) ces.

(** The settings [getSettings] resolved with. *)
Definition loaded (ces : list CommandEvent) : list (Settings T) :=
  flat_map (fun ce =>
    match ce with
    | SettingsReturned _ settings => [settings]
    | _ => []
    end) ces.

End Command.

Arguments SettingsCalled {T}.
Arguments SettingsReturned {T}.
Arguments SettingsThrew {T}.
Arguments Migrating {T}.
Arguments Build_CommandRun {T}.
Arguments commandFinal {T}.
Arguments commandEvents {T}.
Arguments commandOutcome {T}.
Arguments handler {T}.
Arguments Build_CommandModule {T}.
Arguments command {T}.
Arguments aliases {T}.
Arguments describe {T}.
Arguments builder {T}.
Arguments commandHandler {T}.
Arguments migrateCommand {T}.
Arguments migrating {T}.
Arguments loaded {T}.

(** The command on the concrete target: the configuration file names the
    hook commands; without one, the built-in settings are used. *)
Module DemoCommand.

Definition getSettings (configFile : option string)
  : Ext Demo.T (Settings Demo.T) :=
  fun db =>
    match configFile with
    | Some "missing.json" => (db, inl Demo.InvalidSettings)
    | Some file =>
        (db, inr (Some "postgres:///app", Some "postgres:///app_shadow",
                  (["sh " ++ file], ["make dump"]))%string)
    | None =>
        (db, inr (Some "postgres:///app", None, ([], [])))
    end.

Definition argv (file : option string) (shadow forceActions : bool) : Argv.t :=
  {| Argv.config := file;
     Argv.shadow := shadow;
     Argv.forceActions := forceActions |}.

(** A target whose advisory lock cannot be taken. *)
Definition lockedOut : Demo.Database :=
  {| Demo.reachable := true;
     Demo.lockable := false;
     Demo.bootstrapped := true;
     Demo.marker := None;
     Demo.catalog := [1; 2];
     Demo.broken := [] |}.

(** Settings whose logger rejects. *)
Definition muted : ParsedSettings Demo.T :=
  @Build_ParsedSettings Demo.T
    (Some "postgres:///app") None ["make schema"] ["make dump"] false tt.

End DemoCommand.

(** * Properties of the orchestration *)

Section Properties.

Variable T : Types.
Variable env : Collaborators T.

Implicit Types (parsedSettings : ParsedSettings T) (w : World T).
Implicit Types (tr : list (Event T)) (ms batch : list (Migration T)).

(** ** The monad *)

Lemma bind_rejects {A B} (m : M T A) (k : A -> M T B) w e :
  outcome (m w) = inl e ->
  events (bind m k w) = events (m w) /\ outcome (bind m k w) = inl e
  /\ final (bind m k w) = final (m w).
Proof.
  intros H. unfold bind. rewrite H. simpl. auto.
Qed.

Lemma bind_resolves {A B} (m : M T A) (k : A -> M T B) w a :
  outcome (m w) = inr a ->
  events (bind m k w) = events (m w) ++ events (k a (final (m w)))
  /\ outcome (bind m k w) = outcome (k a (final (m w)))
  /\ final (bind m k w) = final (k a (final (m w))).
Proof.
  intros H. unfold bind. rewrite H. simpl. auto.
Qed.

Lemma bind_external {A B} (c : Call T) (v : A -> Value T) (f : Ext T A)
    (k : A -> M T B) w :
  bind (external c v f) k w =
  match f w with
  | (w', inr a) =>
      {| final := final (k a w');
         events := resolved c (v a) ++ events (k a w');
         outcome := outcome (k a w') |}
  | (w', inl x) =>
      {| final := w'; events := rejected c x; outcome := inl (Thrown x) |}
  end.
Proof.
  unfold bind, external. destruct (f w) as [w' [x | a]]; reflexivity.
Qed.

Lemma bind_ret {A B} (a : A) (k : A -> M T B) w :
  events (bind (ret a) k w) = events (k a w)
  /\ outcome (bind (ret a) k w) = outcome (k a w)
  /\ final (bind (ret a) k w) = final (k a w).
Proof.
  unfold bind, ret. simpl. auto.
Qed.

(** ** The loop over the pending batch *)

(** The loop either applies the whole batch, or stops at the first
    migration whose application rejects. *)
Lemma forOf_runner parsedSettings (shadow : bool) pgClient context ms w :
  let r := forOf ms (fun m =>
             runCommittedMigration env pgClient parsedSettings context m
               (if shadow then "[shadow]" else "")) w in
  (outcome r = inr tt
   /\ events r = ranAll parsedSettings shadow pgClient context ms)
  \/ (exists done failing rest x,
        ms = done ++ failing :: rest
        /\ events r = ranAll parsedSettings shadow pgClient context done
                      ++ rejected (callRunner parsedSettings shadow pgClient
                                     context failing) x
        /\ outcome r = inl (Thrown x)
        /\ exists w0 w1,
             do_runCommittedMigration env pgClient parsedSettings context
               failing (if shadow then "[shadow]" else "") w0 = (w1, inl x)).
Proof.
  revert w. induction ms as [| m ms IH]; intros w r.
  - left. split; reflexivity.
  - assert (Hr : r = _)
      by (subst r; cbn [forOf]; unfold runCommittedMigration at 1;
          apply bind_external).
    clearbody r. subst r.
    destruct (do_runCommittedMigration env pgClient parsedSettings context m _ w)
      as [w1 [x | []]] eqn:Hcall; cbn [outcome events final].
    + right. exists [], m, ms, x. repeat split. exists w, w1. exact Hcall.
    + destruct (IH w1)
        as [(Ho & He) | (done & failing & rest & x & -> & He & Ho & Hx)].
      * left. rewrite Ho, He. split; reflexivity.
      * right. exists (m :: done), failing, rest, x.
        rewrite Ho, He. repeat split. exact Hx.
Qed.

(** ** Every run follows one of the paths *)

Tactic Notation "external_step" constr(f) "as" ident(w') ident(x) ident(a) :=
  rewrite bind_external;
  match goal with
  | |- context [match f ?e ?p ?q ?r ?s ?t ?v with _ => _ end] =>
      destruct (f e p q r s t v) as [w' [x | a]]
  | |- context [match f ?e ?p ?q ?r ?v with _ => _ end] =>
      destruct (f e p q r v) as [w' [x | a]]
  | |- context [match f ?e ?p ?q ?v with _ => _ end] =>
      destruct (f e p q v) as [w' [x | a]]
  end;
  cbn [events outcome final].

Lemma work_path parsedSettings (shadow forceActions : bool) pgClient context w :
  let r := lockedWork env parsedSettings shadow forceActions
             (if shadow then "[shadow]" else "") pgClient context w in
  exists p,
    feasible forceActions p = true
    /\ events r = workTrace parsedSettings shadow forceActions pgClient context p
    /\ outcome r = workOutcome p
    /\ raisedBy env parsedSettings shadow pgClient context p.
Proof.
  cbv zeta. unfold lockedWork, getLastMigration.
  external_step (@do_getLastMigration T) as w1 x last.
  { exists (LastMigrationFailed x). repeat split. }
  unfold getMigrationsAfter.
  external_step (@do_getMigrationsAfter T) as w2 x batch.
  { exists (MigrationsAfterFailed last x). repeat split. }
  change ((0 <? List.length batch)%nat || forceActions)
    with (shouldExecute forceActions batch).
  set (loop := forOf batch _).
  assert (Hafter : forall w',
    let r := bind (when (shouldExecute forceActions batch)
                     (executeActions env After parsedSettings shadow
                        (afterAllMigrations parsedSettings)))
               (fun _ => logger_info env (logger parsedSettings)
                           (statusLine (if shadow then "[shadow]" else "")
                              batch last)) w' in
    (exists x, shouldExecute forceActions batch = true
               /\ events r = rejected (callHook parsedSettings shadow After) x
               /\ outcome r = inl (Thrown x))
    \/ (exists logged,
          events r = ranHook parsedSettings shadow forceActions After batch
                     ++ either (CLoggerInfo (logger parsedSettings)
                                  (statusLine (if shadow then "[shadow]" else "")
                                     batch last)) logged
          /\ outcome r = workOutcome (Reported last batch logged))).
  { intros w'. cbv zeta. unfold ranHook.
    destruct (shouldExecute forceActions batch); unfold when.
    - unfold executeActions. external_step (@do_executeActions T) as w3 x u.
      + left. exists x. repeat split.
      + right. unfold logger_info, external.
        destruct (do_info env _ _ _) as [w4 [x | []]]; cbn [events outcome final].
        * exists (inl x). split; reflexivity.
        * exists (inr tt). split; reflexivity.
    - right.
      rewrite (proj1 (bind_ret _ _ _)), (proj1 (proj2 (bind_ret _ _ _))).
      unfold logger_info, external.
      destruct (do_info env _ _ _) as [w4 [x | []]]; cbn [events outcome final].
      + exists (inl x). split; reflexivity.
      + exists (inr tt). split; reflexivity. }
  assert (Hloop : forall w',
    let r := bind loop (fun _ =>
               bind (when (shouldExecute forceActions batch)
                       (executeActions env After parsedSettings shadow
                          (afterAllMigrations parsedSettings)))
                 (fun _ => logger_info env (logger parsedSettings)
                             (statusLine (if shadow then "[shadow]" else "")
                                batch last))) w' in
    exists p,
      feasible forceActions p = true
      /\ ledgerRead parsedSettings pgClient last batch
         ++ ranHook parsedSettings shadow forceActions Before batch
         ++ events r
         = workTrace parsedSettings shadow forceActions pgClient context p
      /\ outcome r = workOutcome p
      /\ raisedBy env parsedSettings shadow pgClient context p).
  { intros w'. cbv zeta.
    destruct (forOf_runner parsedSettings shadow pgClient context batch w')
      as [(Ho & He) | (done & failing & rest & x & Hb & He & Ho & Hx)];
      fold loop in Ho, He.
    - destruct (bind_resolves loop
                  (fun _ => bind (when (shouldExecute forceActions batch)
                       (executeActions env After parsedSettings shadow
                          (afterAllMigrations parsedSettings)))
                 (fun _ => logger_info env (logger parsedSettings)
                             (statusLine (if shadow then "[shadow]" else "")
                                batch last))) w' tt Ho) as (-> & -> & _).
      rewrite He.
      destruct (Hafter (final (loop w')))
        as [(x & S & -> & ->) | (logged & -> & ->)].
      + exists (AfterFailed last batch x). repeat split. exact S.
      + exists (Reported last batch logged). repeat split.
    - destruct (bind_rejects loop
                  (fun _ => bind (when (shouldExecute forceActions batch)
                       (executeActions env After parsedSettings shadow
                          (afterAllMigrations parsedSettings)))
                 (fun _ => logger_info env (logger parsedSettings)
                             (statusLine (if shadow then "[shadow]" else "")
                                batch last))) w' _ Ho) as (-> & -> & _).
      rewrite He. exists (MigrationFailed last done failing rest x).
      rewrite Hb. repeat split. exact Hx. }
  set (k := fun _ : unit => bind loop _).
  change (forall w', exists p,
    feasible forceActions p = true
    /\ ledgerRead parsedSettings pgClient last batch
       ++ ranHook parsedSettings shadow forceActions Before batch
       ++ events (k tt w')
       = workTrace parsedSettings shadow forceActions pgClient context p
    /\ outcome (k tt w') = workOutcome p
    /\ raisedBy env parsedSettings shadow pgClient context p) in Hloop.
  clearbody k. unfold ranHook in Hloop.
  destruct (shouldExecute forceActions batch) eqn:S; unfold when.
  - unfold executeActions. external_step (@do_executeActions T) as w3 x u.
    + exists (BeforeFailed last batch x). repeat split. exact S.
    + destruct u. destruct (Hloop w3) as (p & F & He & Ho & Hx).
      exists p. rewrite <- He, Ho. repeat split; assumption.
  - rewrite (proj1 (bind_ret _ _ _)), (proj1 (proj2 (bind_ret _ _ _))).
    destruct (Hloop w2) as (p & F & He & Ho & Hx).
    exists p. rewrite <- He, Ho. repeat split; assumption.
Qed.

Lemma migrate_path parsedSettings (shadow_arg forceActions_arg : option bool) w :
  let r := _migrate env parsedSettings shadow_arg forceActions_arg w in
  let shadow := orFalse shadow_arg in
  let forceActions := orFalse forceActions_arg in
  exists p,
    feasibleRun parsedSettings shadow forceActions p = true
    /\ events r = runTrace parsedSettings shadow forceActions p
    /\ outcome r = runOutcome p
    /\ raisedInRun env parsedSettings shadow p.
Proof.
  cbv zeta. unfold _migrate. cbv zeta.
  generalize (orFalse shadow_arg) (orFalse forceActions_arg).
  intros shadow forceActions.
  destruct (truthy (if shadow then _ else _)) eqn:Hcs; cbn [negb].
  2:{ exists NoConnectionString. cbn [feasibleRun]. rewrite Hcs.
      repeat split. }
  unfold withClient.
  destruct (do_connect env _ parsedSettings w) as [w1 [x | [pgClient context]]].
  { exists (ConnectFailed x). cbn [feasibleRun]. rewrite Hcs. repeat split. }
  unfold withAdvisoryLock.
  destruct (do_lock env pgClient w1) as [w2 [x | []]].
  { exists (Connected pgClient context (LockFailed x)).
    cbn [feasibleRun]. rewrite Hcs. repeat split. }
  destruct (work_path parsedSettings shadow forceActions pgClient context w2)
    as (p & F & He & Ho & Hx).
  exists (Connected pgClient context (Locked p)).
  cbn [feasibleRun events outcome]. rewrite Hcs, F, He, Ho.
  repeat split. exact Hx.
Qed.

(** ** Reading the trace of a path *)

Section Readers.

Variables (parsedSettings : ParsedSettings T) (shadow : bool).
Variables (pgClient : PgClient T) (context : Context T).

Let ran := ranAll parsedSettings shadow pgClient context.

Lemma hookInvoked_app phase tr1 tr2 :
  hookInvoked phase (tr1 ++ tr2) = hookInvoked phase tr1 || hookInvoked phase tr2.
Proof. apply existsb_app. Qed.

Lemma hookFailed_app phase tr1 tr2 :
  hookFailed phase (tr1 ++ tr2) = hookFailed phase tr1 || hookFailed phase tr2.
Proof. apply existsb_app. Qed.

Lemma ledgerFailed_app tr1 tr2 :
  ledgerFailed (tr1 ++ tr2) = ledgerFailed tr1 || ledgerFailed tr2.
Proof. apply existsb_app. Qed.

Lemma hookCalls_app tr1 tr2 : hookCalls (tr1 ++ tr2) = hookCalls tr1 ++ hookCalls tr2.
Proof. apply flat_map_app. Qed.

Lemma hookErrors_app phase tr1 tr2 :
  hookErrors phase (tr1 ++ tr2) = hookErrors phase tr1 ++ hookErrors phase tr2.
Proof. apply flat_map_app. Qed.

Lemma ledgerErrors_app tr1 tr2 :
  ledgerErrors (tr1 ++ tr2) = ledgerErrors tr1 ++ ledgerErrors tr2.
Proof. apply flat_map_app. Qed.

Lemma attempted_app tr1 tr2 : attempted (tr1 ++ tr2) = attempted tr1 ++ attempted tr2.
Proof. apply flat_map_app. Qed.

Lemma applied_app tr1 tr2 : applied (tr1 ++ tr2) = applied tr1 ++ applied tr2.
Proof. apply flat_map_app. Qed.

Lemma runnerOutcomes_app tr1 tr2 :
  runnerOutcomes (tr1 ++ tr2) = runnerOutcomes tr1 ++ runnerOutcomes tr2.
Proof. apply flat_map_app. Qed.

Lemma batches_app tr1 tr2 : batches (tr1 ++ tr2) = batches tr1 ++ batches tr2.
Proof. apply flat_map_app. Qed.

Lemma markers_app tr1 tr2 : markers (tr1 ++ tr2) = markers tr1 ++ markers tr2.
Proof. apply flat_map_app. Qed.

Lemma connections_app tr1 tr2 :
  connections (tr1 ++ tr2) = connections tr1 ++ connections tr2.
Proof. apply flat_map_app. Qed.

Lemma statusLines_app tr1 tr2 :
  statusLines (tr1 ++ tr2) = statusLines tr1 ++ statusLines tr2.
Proof. apply flat_map_app. Qed.

(** The segment of a trace in which a list of migrations is applied. *)
Lemma attempted_ran ms : attempted (ran ms) = ms.
Proof. induction ms as [| m ms IH]; simpl; [|rewrite IH]; reflexivity. Qed.

Lemma applied_ran ms : applied (ran ms) = ms.
Proof. induction ms as [| m ms IH]; simpl; [|rewrite IH]; reflexivity. Qed.

Lemma runnerOutcomes_ran ms : runnerOutcomes (ran ms) = map (fun m => (m, None)) ms.
Proof. induction ms as [| m ms IH]; simpl; [|rewrite IH]; reflexivity. Qed.

Lemma filter_isRunner_ran ms : filter isRunner (ran ms) = ran ms.
Proof. induction ms as [| m ms IH]; simpl; [|rewrite IH]; reflexivity. Qed.

Lemma hookInvoked_ran phase ms : hookInvoked phase (ran ms) = false.
Proof. destruct phase; induction ms as [| m ms IH]; simpl; auto. Qed.

Lemma hookFailed_ran phase ms : hookFailed phase (ran ms) = false.
Proof. destruct phase; induction ms as [| m ms IH]; simpl; auto. Qed.

Lemma ledgerFailed_ran ms : ledgerFailed (ran ms) = false.
Proof. induction ms as [| m ms IH]; simpl; auto. Qed.

Lemma hookCalls_ran ms : hookCalls (ran ms) = [].
Proof. induction ms as [| m ms IH]; simpl; auto. Qed.

Lemma hookErrors_ran phase ms : hookErrors phase (ran ms) = [].
Proof. destruct phase; induction ms as [| m ms IH]; simpl; auto. Qed.

Lemma ledgerErrors_ran ms : ledgerErrors (ran ms) = [].
Proof. induction ms as [| m ms IH]; simpl; auto. Qed.

Lemma batches_ran ms : batches (ran ms) = [].
Proof. induction ms as [| m ms IH]; simpl; auto. Qed.

Lemma markers_ran ms : markers (ran ms) = [].
Proof. induction ms as [| m ms IH]; simpl; auto. Qed.

Lemma statusLines_ran ms : statusLines (ran ms) = [].
Proof. induction ms as [| m ms IH]; simpl; auto. Qed.

Lemma connections_ran ms : connections (ran ms) = [].
Proof. induction ms as [| m ms IH]; simpl; auto. Qed.

Lemma no_scope_ran ms : forallb (fun e => negb (isScope e)) (ran ms) = true.
Proof. induction ms as [| m ms IH]; simpl; auto. Qed.

Lemma Serial_ran ms : Serial ms (ran ms).
Proof.
  induction ms as [| m ms IH]; simpl.
  - constructor.
  - apply Serial_applied, IH.
Qed.

Lemma Serial_ran_failed done failing x :
  Serial (done ++ [failing])
    (ran done
     ++ rejected (callRunner parsedSettings shadow pgClient context failing) x).
Proof.
  induction done as [| m done IH]; simpl.
  - apply Serial_failed.
  - apply Serial_applied, IH.
Qed.

End Readers.

Create Rewrite HintDb trace.
Hint Rewrite hookInvoked_app hookFailed_app ledgerFailed_app hookCalls_app
  hookErrors_app ledgerErrors_app attempted_app applied_app runnerOutcomes_app
  batches_app markers_app statusLines_app connections_app connections_ran
  attempted_ran applied_ran runnerOutcomes_ran hookInvoked_ran hookFailed_ran
  ledgerFailed_ran hookCalls_ran hookErrors_ran ledgerErrors_ran batches_ran
  markers_ran statusLines_ran filter_isRunner_ran : trace.

(** Unfolds the trace of a path and pushes the readers through it. *)
Ltac read_trace :=
  cbn [runTrace lockTrace workTrace runOutcome lockOutcome workOutcome];
  unfold ledgerRead, ranHook, pendingBatch;
  autorewrite with trace; simpl.

(** Splits a run into the paths it can have followed. *)
Ltac by_path parsedSettings shadow_arg forceActions_arg w :=
  let P := fresh "P" in
  pose proof (migrate_path parsedSettings shadow_arg forceActions_arg w) as P;
  cbv zeta in P |- *;
  set (shadow := orFalse shadow_arg) in *;
  set (forceActions := orFalse forceActions_arg) in *;
  clearbody shadow forceActions;
  let p := fresh "p" in
  let F := fresh "F" in
  let X := fresh "X" in
  let Sel := fresh "Sel" in
  let He := fresh "He" in
  let Ho := fresh "Ho" in
  destruct P as (p & F & He & Ho & X);
  rewrite ?He, ?Ho; clear He Ho;
  destruct p as [| ?x | pgClient context
                   [ ?x
                   | [ ?x | last ?x | last batch ?x | last done failing rest ?x
                     | last batch ?x | last batch [?x | []] ] ] ];
  cbn [feasibleRun feasible raisedInRun raisedBy] in F, X;
  try (apply andb_true_iff in F; destruct F as [Sel F]).

Ltac decide_hooks :=
  repeat match goal with
  | H : shouldExecute ?f ?b = _ |- context [shouldExecute ?f ?b] => rewrite H
  | |- context [shouldExecute ?f ?b] => destruct (shouldExecute f b) eqn:?
  end;
  simpl; rewrite ?app_nil_r, ?orb_false_r.

(** ** Helpers *)

Lemma shouldExecute_true (forceActions : bool) batch :
  shouldExecute forceActions batch = true <-> batch <> [] \/ forceActions = true.
Proof.
  unfold shouldExecute.
  destruct batch as [| m ms], forceActions; simpl; split; intros H; auto;
    try (left; discriminate); destruct H; congruence.
Qed.

Lemma stopped_short {A} (done rest : list A) (failing : A) :
  done <> done ++ failing :: rest.
Proof.
  intros H. apply (f_equal (@List.length A)) in H.
  rewrite length_app in H. simpl in H. lia.
Qed.

(** ** Hook gating *)

(** C1 (as amended).  In every run, the before-phase hook actions are
    invoked through [executeActions] exactly when [getMigrationsAfter]
    returned a pending batch and that batch is non-empty or [forceActions]
    is set; the after-phase hook actions are invoked exactly when, in
    addition, the before-phase call did not reject and every migration of
    the batch was applied. *)
Theorem hooks_invoked_iff parsedSettings (shadow_arg forceActions_arg : option bool) w :
  let tr := events (_migrate env parsedSettings shadow_arg forceActions_arg w) in
  let forceActions := orFalse forceActions_arg in
  (hookInvoked Before tr = true <->
   exists batch,
     pendingBatch tr = Some batch /\ (batch <> [] \/ forceActions = true))
  /\ (hookInvoked After tr = true <->
      exists batch,
        pendingBatch tr = Some batch /\ (batch <> [] \/ forceActions = true)
        /\ hookFailed Before tr = false /\ applied tr = batch)
  /\ (hookCalls tr = [] \/ hookCalls tr = [Before]
      \/ hookCalls tr = [Before; After]).
Proof.
  by_path parsedSettings shadow_arg forceActions_arg w;
    read_trace; decide_hooks; repeat apply conj;
    try (first [ left; reflexivity
               | right; left; reflexivity
               | right; right; reflexivity ]).
  (* what is left are the two directions of each equivalence *)
  all: try (intros H; discriminate H).
  all: try (intros (b0 & E & _); discriminate E).
  all: try (intros _; eexists; repeat split;
            apply shouldExecute_true; assumption).
  all: intros (b0 & E & H); injection E as <-;
    try destruct H as (H & R1 & R2);
    apply shouldExecute_true in H; try congruence;
    try discriminate R1; exfalso; exact (stopped_short _ _ _ R2).
Qed.

(** ** Failure of the before phase *)

(** C2.  In every run in which the before-phase [executeActions] call
    rejects, [runCommittedMigration] is never called, the after-phase
    [executeActions] call is never made, and [_migrate] rejects with the
    error of the before-phase call. *)
Theorem before_failure_aborts parsedSettings
    (shadow_arg forceActions_arg : option bool) w :
  let r := _migrate env parsedSettings shadow_arg forceActions_arg w in
  hookFailed Before (events r) = true ->
  attempted (events r) = []
  /\ hookInvoked After (events r) = false
  /\ exists err, hookErrors Before (events r) = [err] /\ outcome r = inl err.
Proof.
  by_path parsedSettings shadow_arg forceActions_arg w;
    read_trace; decide_hooks; try discriminate.
  intros _. repeat split. exists (Thrown x). split; reflexivity.
Qed.

(** ** Failure of a ledger read *)

(** C9.  In every run in which [getLastMigration] or [getMigrationsAfter]
    rejects, no [executeActions] call and no [runCommittedMigration] call
    is made, and [_migrate] rejects with the error of the ledger read. *)
Theorem ledger_failure_aborts parsedSettings
    (shadow_arg forceActions_arg : option bool) w :
  let r := _migrate env parsedSettings shadow_arg forceActions_arg w in
  ledgerFailed (events r) = true ->
  hookCalls (events r) = []
  /\ attempted (events r) = []
  /\ exists err, ledgerErrors (events r) = [err] /\ outcome r = inl err.
Proof.
  intros r H. subst r. revert H.
  by_path parsedSettings shadow_arg forceActions_arg w;
    read_trace; decide_hooks; try discriminate;
    intros _; repeat split; exists (Thrown x); split; reflexivity.
Qed.

(** ** Failure of a migration *)

Lemma applied_never_failed {A E} (ms : list A) i (m : A) (x : E) :
  nth_error (map (fun m => (m, @None E)) ms) i <> Some (m, Some x).
Proof.
  revert i. induction ms as [| m' ms IH]; intros [| i]; simpl;
    try discriminate. apply IH.
Qed.

Lemma first_failure {A E} (done : list A) (failing : A) (x : E) i m x' :
  nth_error (map (fun m => (m, @None E)) done ++ [(failing, Some x)]) i
  = Some (m, Some x') ->
  i = List.length done /\ m = failing /\ x' = x.
Proof.
  revert i. induction done as [| m' done IH]; intros [| i]; simpl;
    try discriminate.
  - intros [= -> ->]. auto.
  - destruct i; discriminate.
  - intros H. destruct (IH i H) as (-> & -> & ->). auto.
Qed.

Lemma firstn_through {A} (done rest : list A) (failing : A) :
  firstn (List.length done + 1) (done ++ failing :: rest) = done ++ [failing]
  /\ firstn (List.length done) (done ++ failing :: rest) = done
  /\ nth_error (done ++ failing :: rest) (List.length done) = Some failing.
Proof.
  induction done as [| m done (IH1 & IH2 & IH3)]; simpl.
  - auto.
  - rewrite IH1, IH2. auto.
Qed.

(** C3.  When the pending batch has [n] migrations and the [k]-th call of
    [runCommittedMigration] rejects ([1 <= k <= n]), the calls made are
    exactly those for migrations [1..k] of the batch, in order, and
    migrations [1..k-1] are applied; the after-phase [executeActions]
    call is never made; no status line is logged; and [_migrate] rejects
    with the very error the runner raised for the [k]-th migration, so
    that the error names that migration whenever runner errors carry the
    identity of the migration they are raised for. *)
Theorem migration_failure_stops_batch parsedSettings
    (shadow_arg forceActions_arg : option bool) w pending k m err :
  let r := _migrate env parsedSettings shadow_arg forceActions_arg w in
  pendingBatch (events r) = Some pending ->
  1 <= k ->
  nth_error (runnerOutcomes (events r)) (k - 1) = Some (m, Some err) ->
  k <= List.length pending
  /\ nth_error pending (k - 1) = Some m
  /\ attempted (events r) = firstn k pending
  /\ applied (events r) = firstn (k - 1) pending
  /\ hookInvoked After (events r) = false
  /\ statusLines (events r) = []
  /\ outcome r = inl err
  /\ exists x,
       err = Thrown x
       /\ raisedFor env m x
       /\ forall identity, carriesIdentity env identity -> identity x = Some m.
Proof.
  intros r Hb Hk Hf. subst r. revert Hb Hf.
  by_path parsedSettings shadow_arg forceActions_arg w;
    read_trace; decide_hooks; try discriminate;
    try (intros _ Hf; destruct (k - 1); discriminate Hf);
    try (intros _ Hf; exfalso; exact (applied_never_failed _ _ _ _ Hf)).
  all: intros [= <-] Hf;
    destruct (first_failure _ _ _ _ _ _ Hf) as (Hi & -> & ->);
    destruct X as (w0 & w1 & Hx);
    assert (Hfor : raisedFor env failing x)
      by (exists pgClient, parsedSettings, context,
            (if shadow then "[shadow]" else ""), w0, w1; exact Hx);
    destruct (firstn_through done rest failing) as (F1 & F2 & F3);
    replace k with (List.length done + 1) by lia;
    replace (List.length done + 1 - 1) with (List.length done) by lia;
    rewrite F1, F2, F3, length_app; simpl;
    repeat split; try lia;
    exists x; repeat split; [exact Hfor | intros identity Hid; exact (Hid _ _ Hfor)].
Qed.

(** ** Order of application *)

(** C4.  In every run the calls of [runCommittedMigration] form a series:
    each has settled before the next is made.  The migrations they are
    made for are, in order, the first migrations of the batch returned by
    [getMigrationsAfter] (none when no batch was returned), and all of
    the batch, each applied, when the run completes. *)
Theorem migrations_applied_in_series parsedSettings
    (shadow_arg forceActions_arg : option bool) w :
  let r := _migrate env parsedSettings shadow_arg forceActions_arg w in
  Serial (attempted (events r)) (filter isRunner (events r))
  /\ match pendingBatch (events r) with
     | Some batch =>
         (exists rest, batch = attempted (events r) ++ rest)
         /\ (outcome r = inr tt -> applied (events r) = batch)
     | None => attempted (events r) = []
     end.
Proof.
  by_path parsedSettings shadow_arg forceActions_arg w;
    read_trace; rewrite ?filter_app; decide_hooks;
    rewrite ?filter_isRunner_ran;
    (split;
     [ first [ constructor | apply Serial_ran | apply Serial_ran_failed ]
     | try reflexivity ]).
  all: split; [| intros [=]; reflexivity || discriminate ].
  all: try (exists []; rewrite app_nil_r; reflexivity).
  all: try (exists rest; rewrite <- app_assoc; reflexivity).
  exists batch. reflexivity.
Qed.

(** ** Selection of the connection string *)

(** C5.  [_migrate] selects [shadowConnectionString] when [shadow] is
    true and [connectionString] otherwise.  If the selected value is
    falsy, it rejects with the error "Could not determine connection
    string" having done nothing: no event, the world untouched.
    Otherwise the selected string is the one, and the only one,
    [withClient] is called with, and that call opens the run. *)
Theorem connection_string_selected parsedSettings
    (shadow_arg forceActions_arg : option bool) w :
  let r := _migrate env parsedSettings shadow_arg forceActions_arg w in
  let selected :=
    if orFalse shadow_arg
    then shadowConnectionString parsedSettings
    else connectionString parsedSettings in
  if truthy selected
  then selected = Some (asString selected)
       /\ connections (events r) = [asString selected]
       /\ exists rest,
            events r = Called (CWithClient (asString selected) parsedSettings) :: rest
  else r = {| final := w;
              events := [];
              outcome := inl (JsError "Could not determine connection string") |}.
Proof.
  cbv zeta.
  destruct (truthy (if orFalse shadow_arg then _ else _)) eqn:Hsel.
  - split.
    { destruct (if orFalse shadow_arg then _ else _); [reflexivity | discriminate]. }
    revert Hsel.
    by_path parsedSettings shadow_arg forceActions_arg w;
      intros Hsel; read_trace; decide_hooks.
    1: rewrite Hsel in F; discriminate.
    all: split; [reflexivity | eexists; reflexivity].
  - unfold _migrate. cbv zeta. rewrite Hsel. reflexivity.
Qed.

(** ** Idempotence *)

(** C7 (as amended).  Let [_migrate] run a second time, without
    [forceActions], in the world the first run left, and let
    [getMigrationsAfter] return an empty batch there.  Then the second
    run calls neither [runCommittedMigration] nor [executeActions]; it
    logs one status line; and every event of it is the connection or the
    lock being acquired or released, a ledger read, or that log line. *)
Theorem second_run_is_idle parsedSettings
    (shadow_arg forceActions_first forceActions_arg : option bool) w :
  let first := _migrate env parsedSettings shadow_arg forceActions_first w in
  let second :=
    _migrate env parsedSettings shadow_arg forceActions_arg (final first) in
  orFalse forceActions_arg = false ->
  pendingBatch (events second) = Some [] ->
  attempted (events second) = []
  /\ hookCalls (events second) = []
  /\ (exists line, statusLines (events second) = [line])
  /\ forallb (fun e => isSession e || isLock e || isLedger e || isLog e)
       (events second) = true.
Proof.
  intros first second. subst second. generalize (final first). clear first w.
  intros w Hforce. revert Hforce.
  by_path parsedSettings shadow_arg forceActions_arg w;
    intros ->; read_trace; try discriminate;
    intros [= H]; try (destruct done; discriminate H); subst batch;
    try discriminate F; simpl.
  all: repeat split; eexists; reflexivity.
Qed.

(** ** Work happens under the lock *)

(** While the lock is held, events that do not enter or leave a scope
    leave the scan where it is. *)
Lemma scoped_under_lock (body rest : list (Event T)) :
  forallb (fun e => negb (isScope e)) body = true ->
  scoped true true (body ++ rest) = scoped true true rest.
Proof.
  induction body as [| e body IH]; simpl; [reflexivity|].
  intros H. apply andb_true_iff in H. destruct H as [He Hbody].
  destruct e as [c | c v | c x | [] | []]; try discriminate He;
    (destruct (isWork _); simpl; auto).
Qed.

(** The callback of [withAdvisoryLock] enters and leaves no scope. *)
Lemma work_opens_no_scope parsedSettings (shadow forceActions : bool)
    pgClient context (p : WorkPath T) :
  forallb (fun e => negb (isScope e))
    (workTrace parsedSettings shadow forceActions pgClient context p) = true.
Proof.
  destruct p as [x | last x | last batch x | last done failing rest x
                 | last batch x | last batch [x | []]];
    cbn [workTrace]; unfold ledgerRead, ranHook;
    repeat match goal with
    | |- context [shouldExecute ?f ?b] => destruct (shouldExecute f b)
    end;
    rewrite ?forallb_app, ?no_scope_ran; reflexivity.
Qed.

(** C8.  In every run, every ledger read, every [executeActions] call and
    every [runCommittedMigration] call is made while the advisory lock is
    held, the lock is taken only while the session of [withClient] is
    held, and it is given back before the session is.  Either the run
    does no migration work at all, or its trace is: [withClient] called
    and the session acquired; [withAdvisoryLock] called and the lock
    acquired; the events of the callback, all the work among them; the
    lock released and [withAdvisoryLock] settled; the session released
    and [withClient] settled. *)
Theorem work_inside_lock parsedSettings
    (shadow_arg forceActions_arg : option bool) w :
  let tr := events (_migrate env parsedSettings shadow_arg forceActions_arg w) in
  scoped false false tr = true
  /\ (filter isWork tr = []
      \/ exists connectionString pgClient context body o,
           tr = [Called (CWithClient connectionString parsedSettings);
                 Acquired (Session pgClient context);
                 Called (CWithAdvisoryLock pgClient);
                 Acquired (AdvisoryLock pgClient)]
                ++ body
                ++ [Released (AdvisoryLock pgClient)]
                ++ settled (CWithAdvisoryLock pgClient) o
                ++ [Released (Session pgClient context)]
                ++ settled (CWithClient connectionString parsedSettings) o
           /\ forallb (fun e => negb (isScope e)) body = true).
Proof.
  cbv zeta.
  destruct (migrate_path parsedSettings shadow_arg forceActions_arg w)
    as (p & _ & -> & _).
  destruct p as [| x | pgClient context [x | q]];
    try (split; [reflexivity | left; reflexivity]).
  split.
  - cbn [runTrace lockTrace]. cbn [app scoped negb andb].
    rewrite <- app_assoc, scoped_under_lock by apply work_opens_no_scope.
    destruct q as [x | last x | last batch x | last done failing rest x
                   | last batch x | last batch [x | []]]; reflexivity.
  - right. eexists _, pgClient, context, _, (workOutcome q).
    split; [| apply work_opens_no_scope].
    cbn [runTrace lockTrace lockOutcome]. cbn [app].
    rewrite <- !app_assoc. reflexivity.
Qed.

(** ** The public entry point *)

(** C10.  [migrate settings shadow forceActions] calls [parseSettings]
    with [settings] and [shadow] and then [_migrate] on the result with
    the same [shadow] and [forceActions]; in [migrate] and in [_migrate],
    an omitted [shadow] or [forceActions] is [false]. *)
Theorem migrate_parses_then_migrates (settings : Settings T) parsedSettings
    (shadow_arg forceActions_arg : option bool) w :
  migrate env settings shadow_arg forceActions_arg w
  = parseThenMigrate env settings (orFalse shadow_arg)
      (orFalse forceActions_arg) w
  /\ migrate env settings None None = migrate env settings (Some false) (Some false)
  /\ migrate env settings shadow_arg None
     = migrate env settings shadow_arg (Some false)
  /\ migrate env settings None forceActions_arg
     = migrate env settings (Some false) forceActions_arg
  /\ _migrate env parsedSettings None None
     = _migrate env parsedSettings (Some false) (Some false)
  /\ _migrate env parsedSettings shadow_arg None
     = _migrate env parsedSettings shadow_arg (Some false)
  /\ _migrate env parsedSettings None forceActions_arg
     = _migrate env parsedSettings (Some false) forceActions_arg.
Proof.
  split; [| repeat split].
  unfold migrate, parseThenMigrate, parseSettings. cbv zeta.
  rewrite bind_external.
  destruct (do_parseSettings env settings (orFalse shadow_arg) w)
    as [w' [x | parsed]]; reflexivity.
Qed.


(** * Further properties of [_migrate] *)

Section MoreReaderLemmas.

Variables (parsedSettings : ParsedSettings T) (shadow : bool).
Variables (pgClient : PgClient T) (context : Context T).

Let ran := ranAll parsedSettings shadow pgClient context.

Lemma steps_app tr1 tr2 : steps (tr1 ++ tr2) = steps tr1 ++ steps tr2.
Proof. apply flat_map_app. Qed.

Lemma queried_app tr1 tr2 : queried (tr1 ++ tr2) = queried tr1 ++ queried tr2.
Proof. apply flat_map_app. Qed.

Lemma sessions_app tr1 tr2 : sessions (tr1 ++ tr2) = sessions tr1 ++ sessions tr2.
Proof. apply flat_map_app. Qed.

Lemma logErrors_app tr1 tr2 :
  logErrors (tr1 ++ tr2) = logErrors tr1 ++ logErrors tr2.
Proof. apply flat_map_app. Qed.

Lemma lockHeld_app tr1 tr2 : lockHeld (tr1 ++ tr2) = lockHeld tr1 || lockHeld tr2.
Proof. apply existsb_app. Qed.

Lemma parsed_app tr1 tr2 : parsed (tr1 ++ tr2) = parsed tr1 ++ parsed tr2.
Proof. apply flat_map_app. Qed.

Lemma parseCalls_app tr1 tr2 :
  parseCalls (tr1 ++ tr2) = parseCalls tr1 ++ parseCalls tr2.
Proof. apply flat_map_app. Qed.

Lemma clientCalls_app tr1 tr2 :
  clientCalls (tr1 ++ tr2) = clientCalls tr1 ++ clientCalls tr2.
Proof. apply flat_map_app. Qed.

Lemma rejections_app tr1 tr2 :
  rejections (tr1 ++ tr2) = rejections tr1 ++ rejections tr2.
Proof. apply flat_map_app. Qed.

Lemma rejections_ran ms : rejections (ran ms) = [].
Proof. induction ms as [| m ms IH]; simpl; auto. Qed.

Lemma parsed_ran ms : parsed (ran ms) = [].
Proof. induction ms as [| m ms IH]; simpl; auto. Qed.

Lemma parseCalls_ran ms : parseCalls (ran ms) = [].
Proof. induction ms as [| m ms IH]; simpl; auto. Qed.

Lemma clientCalls_ran ms : clientCalls (ran ms) = [].
Proof. induction ms as [| m ms IH]; simpl; auto. Qed.

Lemma steps_ran ms : steps (ran ms) = map inr ms.
Proof. induction ms as [| m ms IH]; simpl; [|rewrite IH]; reflexivity. Qed.

Lemma queried_ran ms : queried (ran ms) = [].
Proof. induction ms as [| m ms IH]; simpl; auto. Qed.

Lemma sessions_ran ms : sessions (ran ms) = [].
Proof. induction ms as [| m ms IH]; simpl; auto. Qed.

Lemma logErrors_ran ms : logErrors (ran ms) = [].
Proof. induction ms as [| m ms IH]; simpl; auto. Qed.

Lemma lockHeld_ran ms : lockHeld (ran ms) = false.
Proof. induction ms as [| m ms IH]; simpl; auto. Qed.

Lemma filter_isWork_ran ms : filter isWork (ran ms) = ran ms.
Proof. induction ms as [| m ms IH]; simpl; [|rewrite IH]; reflexivity. Qed.

Lemma addressed_ran held ms :
  held = [(pgClient, context)] ->
  Forall (addressed parsedSettings shadow held) (ran ms).
Proof.
  intros ->. induction ms as [| m ms IH]; simpl.
  - constructor.
  - repeat constructor. exact IH.
Qed.

End MoreReaderLemmas.

Hint Rewrite steps_app queried_app sessions_app logErrors_app lockHeld_app
  steps_ran queried_ran sessions_ran logErrors_ran lockHeld_ran
  parsed_app parseCalls_app clientCalls_app parsed_ran parseCalls_ran
  clientCalls_ran rejections_app rejections_ran : trace.

(** ** The status line *)

(** C6 (as amended).  No run logs more than one status line through
    [logger.info]; a run that completes logs one; and a run that rejects
    has logged one only if it is the [logger.info] call itself that
    rejected, so that a run failing earlier (configuration, connection,
    lock, ledger, hook or migration) logs none.  When a line is logged,
    the lock was held, the ledger reads had returned the marker and the
    batch without failing, every migration of the batch had been
    attempted and applied, both hook phases had run if due and neither
    had failed, and the text is "graphile-migrate", then "[shadow]" when
    operating against the shadow target, then ": " and one of: "N
    committed migrations executed" for a non-empty batch of length N;
    "Already up to date" for an empty batch and a last migration; "Up to
    date — no committed migrations to run" for an empty batch and no last
    migration. *)
Theorem status_line_reported parsedSettings
    (shadow_arg forceActions_arg : option bool) w :
  let r := _migrate env parsedSettings shadow_arg forceActions_arg w in
  let tag := if orFalse shadow_arg then "[shadow]" else "" in
  (statusLines (events r) = []
   \/ exists last batch,
        markers (events r) = [last]
        /\ pendingBatch (events r) = Some batch
        /\ applied (events r) = batch
        /\ attempted (events r) = batch
        /\ lockHeld (events r) = true
        /\ ledgerFailed (events r) = false
        /\ hookFailed Before (events r) = false
        /\ hookFailed After (events r) = false
        /\ hookCalls (events r)
           = (if shouldExecute (orFalse forceActions_arg) batch
              then [Before; After]
              else [])
        /\ statusLines (events r) =
           [("graphile-migrate" ++ tag ++ ": " ++
             match batch, last with
             | _ :: _, _ =>
                 string_of_nat (List.length batch)
                 ++ " committed migrations executed"
             | [], Some _ => "Already up to date"
             | [], None => "Up to date — no committed migrations to run"
             end)%string])
  /\ (outcome r = inr tt -> statusLines (events r) <> [])
  /\ (forall err,
        outcome r = inl err -> statusLines (events r) <> [] ->
        logErrors (events r) = [err])
  /\ List.length (statusLines (events r)) <= 1.
Proof.
  by_path parsedSettings shadow_arg forceActions_arg w;
    read_trace; decide_hooks;
    (split; [| split; [| split]]); auto;
    try discriminate; try (intros err _ H; exfalso; apply H; reflexivity).
  (* the two paths that reach the report *)
  all: try (right; exists last, batch; repeat split;
            try assumption; try (rewrite Heqb; reflexivity);
            unfold statusLine; destruct batch; reflexivity).
  all: try (intros _; discriminate).
  all: intros err [= <-] _; reflexivity.
Qed.

(** X1.  Hooks bracket the batch: in call order, the [executeActions]
    and [runCommittedMigration] calls of a run are the before phase (when
    it is invoked), then the migrations attempted, then the after phase
    (when it is invoked). *)
Theorem hooks_bracket_migrations parsedSettings
    (shadow_arg forceActions_arg : option bool) w :
  let tr := events (_migrate env parsedSettings shadow_arg forceActions_arg w) in
  steps tr
  = (if hookInvoked Before tr then [inl Before] else [])
    ++ map inr (attempted tr)
    ++ (if hookInvoked After tr then [inl After] else []).
Proof.
  by_path parsedSettings shadow_arg forceActions_arg w;
    read_trace; decide_hooks; rewrite ?map_app, ?app_nil_r; reflexivity.
Qed.

(** X4.  The marker read is the marker queried: [getMigrationsAfter] is
    called exactly when [getLastMigration] has resolved, and with the
    value it resolved with. *)
Theorem marker_flows_to_query parsedSettings
    (shadow_arg forceActions_arg : option bool) w :
  let tr := events (_migrate env parsedSettings shadow_arg forceActions_arg w) in
  queried tr = markers tr /\ List.length (markers tr) <= 1.
Proof.
  by_path parsedSettings shadow_arg forceActions_arg w;
    read_trace; decide_hooks; auto.
Qed.


(** X2.  A failing after phase comes too late to stop anything: when the
    after-phase [executeActions] call rejects, the before phase has run,
    every migration of the batch has been applied, no status line is
    logged, and [_migrate] rejects with the error of that call. *)
Theorem after_failure_keeps_migrations parsedSettings
    (shadow_arg forceActions_arg : option bool) w :
  let r := _migrate env parsedSettings shadow_arg forceActions_arg w in
  hookFailed After (events r) = true ->
  pendingBatch (events r) = Some (applied (events r))
  /\ attempted (events r) = applied (events r)
  /\ hookCalls (events r) = [Before; After]
  /\ hookFailed Before (events r) = false
  /\ statusLines (events r) = []
  /\ exists err, hookErrors After (events r) = [err] /\ outcome r = inl err.
Proof.
  by_path parsedSettings shadow_arg forceActions_arg w;
    read_trace; decide_hooks; try discriminate.
  intros _. repeat split. exists (Thrown x). split; reflexivity.
Qed.

(** X3.  Forcing the actions on an up-to-date target: with [forceActions]
    set and an empty batch, no migration is attempted, the before phase
    is invoked, and unless it rejects the after phase is invoked as well,
    each once. *)
Theorem forced_actions_on_empty_batch parsedSettings
    (shadow_arg forceActions_arg : option bool) w :
  let r := _migrate env parsedSettings shadow_arg forceActions_arg w in
  orFalse forceActions_arg = true ->
  pendingBatch (events r) = Some [] ->
  attempted (events r) = []
  /\ (if hookFailed Before (events r)
      then hookCalls (events r) = [Before]
      else hookCalls (events r) = [Before; After]).
Proof.
  intros r Hforce. subst r. revert Hforce.
  by_path parsedSettings shadow_arg forceActions_arg w;
    intros ->; read_trace; try discriminate;
    intros [= H]; try (destruct done; discriminate H); subst batch;
    simpl; auto.
Qed.

(** X5.  Every call of a run carries the arguments of that run: the
    parsed settings everywhere, [withClient] included, which also gets
    the connection string selected by [shadow]; for the lock, the ledger
    and the runner the one connection (and context) [withClient]
    supplied; for the hooks the [shadow] flag and the action list of
    their phase; for the runner the log suffix of the target; for the
    status line the logger of the settings.  [parseSettings] is never
    called. *)
Theorem calls_carry_run_arguments parsedSettings
    (shadow_arg forceActions_arg : option bool) w :
  let tr := events (_migrate env parsedSettings shadow_arg forceActions_arg w) in
  Forall (addressed parsedSettings (orFalse shadow_arg) (sessions tr)) tr
  /\ List.length (sessions tr) <= 1.
Proof.
  by_path parsedSettings shadow_arg forceActions_arg w;
    cbn [runTrace lockTrace workTrace lockOutcome workOutcome];
    unfold ledgerRead, ranHook;
    autorewrite with trace; decide_hooks;
    (split; [| auto]);
    unfold rejected, resolved, callHook, callRunner;
    repeat first
      [ apply Forall_nil
      | apply Forall_cons; [simpl; repeat split; eauto |]
      | apply addressed_ran; reflexivity
      | apply Forall_app; split ].
Qed.


(** X6.  Nothing happens without the lock: in a run that never acquires
    the advisory lock (no connection string, or [withClient] or
    [withAdvisoryLock] failing to enter), there is no ledger read, no
    hook call, no migration and no status line, and [_migrate] rejects. *)
Theorem no_lock_no_work parsedSettings
    (shadow_arg forceActions_arg : option bool) w :
  let r := _migrate env parsedSettings shadow_arg forceActions_arg w in
  lockHeld (events r) = false ->
  filter isWork (events r) = []
  /\ statusLines (events r) = []
  /\ exists err, outcome r = inl err.
Proof.
  by_path parsedSettings shadow_arg forceActions_arg w;
    read_trace; try discriminate; intros _; repeat split; eexists; reflexivity.
Qed.

(** X7.  What a completed run has done, in full: it entered [withClient]
    with the selected connection string and [withAdvisoryLock] with the
    connection obtained, read the marker and the batch, ran the before
    phase if needed, applied every migration of the batch in order, ran
    the after phase if needed, logged the status line, and left both
    scopes; nothing else. *)
Theorem completed_run_trace parsedSettings
    (shadow_arg forceActions_arg : option bool) w :
  let r := _migrate env parsedSettings shadow_arg forceActions_arg w in
  let shadow := orFalse shadow_arg in
  let forceActions := orFalse forceActions_arg in
  let selected :=
    asString (if shadow
              then shadowConnectionString parsedSettings
              else connectionString parsedSettings) in
  outcome r = inr tt ->
  exists pgClient context last batch,
    events r
    = [Called (CWithClient selected parsedSettings);
       Acquired (Session pgClient context);
       Called (CWithAdvisoryLock pgClient);
       Acquired (AdvisoryLock pgClient)]
      ++ ledgerRead parsedSettings pgClient last batch
      ++ ranHook parsedSettings shadow forceActions Before batch
      ++ ranAll parsedSettings shadow pgClient context batch
      ++ ranHook parsedSettings shadow forceActions After batch
      ++ [Called (CLoggerInfo (logger parsedSettings)
                    (statusLine (if shadow then "[shadow]" else "") batch last));
          Returned (CLoggerInfo (logger parsedSettings)
                      (statusLine (if shadow then "[shadow]" else "") batch last))
            VUndefined;
          Released (AdvisoryLock pgClient);
          Returned (CWithAdvisoryLock pgClient) VUndefined;
          Released (Session pgClient context);
          Returned (CWithClient selected parsedSettings) VUndefined].
Proof.
  by_path parsedSettings shadow_arg forceActions_arg w;
    cbn [runOutcome lockOutcome workOutcome]; try discriminate.
  intros _. exists pgClient, context, last, batch.
  cbn [runTrace lockTrace workTrace lockOutcome workOutcome settled either].
  unfold resolved. rewrite <- !app_assoc. reflexivity.
Qed.

(** X8.  A logger that throws does so after the fact: when the
    [logger.info] call rejects, every migration of the batch has been
    attempted and applied, both hook phases have been invoked, in order
    and once each, if the batch is non-empty or [forceActions] is set
    (and none otherwise), no hook has failed, and [_migrate] rejects with
    the logger's error. *)
Theorem logger_failure_after_the_fact parsedSettings
    (shadow_arg forceActions_arg : option bool) w err :
  let r := _migrate env parsedSettings shadow_arg forceActions_arg w in
  In err (logErrors (events r)) ->
  pendingBatch (events r) = Some (applied (events r))
  /\ attempted (events r) = applied (events r)
  /\ hookCalls (events r)
     = (if shouldExecute (orFalse forceActions_arg) (applied (events r))
        then [Before; After]
        else [])
  /\ hookFailed Before (events r) = false
  /\ hookFailed After (events r) = false
  /\ hookInvoked After (events r) = hookInvoked Before (events r)
  /\ List.length (statusLines (events r)) = 1
  /\ outcome r = inl err.
Proof.
  by_path parsedSettings shadow_arg forceActions_arg w;
    cbn [runTrace lockTrace workTrace runOutcome lockOutcome workOutcome];
    unfold ledgerRead, ranHook;
    try (destruct (shouldExecute forceActions batch) eqn:Hdue);
    try (destruct (shouldExecute forceActions (done ++ failing :: rest)));
    autorewrite with trace; simpl; rewrite ?app_nil_r;
    intros H; try contradiction;
    destruct H as [<- | []]; rewrite ?Hdue; repeat split.
Qed.





(** * Properties of [migrate] and of the command *)

(** [_migrate] parses nothing; it connects only with the settings it was
    given, to the connection string its [shadow] flag selects; and on an
    empty batch it is [forceActions] that decides the hooks. *)
Lemma _migrate_flow parsedSettings (shadow_arg forceActions_arg : option bool) w :
  let tr := events (_migrate env parsedSettings shadow_arg forceActions_arg w) in
  parsed tr = [] /\ parseCalls tr = []
  /\ (forall cs settings,
        In (cs, settings) (clientCalls tr) ->
        settings = parsedSettings
        /\ Some cs = (if orFalse shadow_arg
                      then shadowConnectionString parsedSettings
                      else connectionString parsedSettings))
  /\ (pendingBatch tr = Some [] ->
      hookInvoked Before tr = orFalse forceActions_arg).
Proof.
  assert (Hsel : forall v, truthy v = true -> Some (asString v) = v)
    by (intros [s |]; [reflexivity | discriminate]).
  by_path parsedSettings shadow_arg forceActions_arg w;
    read_trace; decide_hooks;
    (split; [reflexivity | split; [reflexivity | split]]).
  (* the connection *)
  all: try (intros cs settings Hin; simpl in Hin;
            first [ contradiction
                  | destruct Hin as [Hin | []]; injection Hin as <- <-;
                    split; [reflexivity | apply Hsel; first [exact Sel | exact F]] ]).
  (* the hooks on an empty batch *)
  all: try discriminate.
  all: intros [= H]; try (destruct done; discriminate H); subst batch;
    unfold shouldExecute in *; simpl in *; congruence.
Qed.

(** [migrate] either stops at [parseSettings], or goes on as [_migrate]
    on what it resolved with. *)
Lemma migrate_cases settings (shadow_arg forceActions_arg : option bool) w :
  let r := migrate env settings shadow_arg forceActions_arg w in
  let c := CParseSettings settings (orFalse shadow_arg) in
  (exists x, events r = rejected c x /\ outcome r = inl (Thrown x))
  \/ (exists parsedSettings w',
        events r
        = resolved c (VParsedSettings parsedSettings)
          ++ events (_migrate env parsedSettings (Some (orFalse shadow_arg))
                       (Some (orFalse forceActions_arg)) w')
        /\ outcome r
           = outcome (_migrate env parsedSettings (Some (orFalse shadow_arg))
                        (Some (orFalse forceActions_arg)) w')).
Proof.
  cbv zeta. unfold migrate, parseSettings. cbv zeta. rewrite bind_external.
  destruct (do_parseSettings env settings (orFalse shadow_arg) w)
    as [w' [x | parsedSettings]]; cbn [events outcome].
  - left. exists x. split; reflexivity.
  - right. exists parsedSettings, w'. split; reflexivity.
Qed.

(** What [migrate] hands on: the flag to [parseSettings], the parsed
    settings and the selected connection string to [withClient], and
    [forceActions] to the hook gate. *)
Lemma migrate_flow settings (shadow_arg forceActions_arg : option bool) w :
  let r := migrate env settings shadow_arg forceActions_arg w in
  parseCalls (events r) = [(settings, orFalse shadow_arg)]
  /\ (forall cs parsedSettings,
        In (cs, parsedSettings) (clientCalls (events r)) ->
        parsed (events r) = [parsedSettings]
        /\ Some cs = (if orFalse shadow_arg
                      then shadowConnectionString parsedSettings
                      else connectionString parsedSettings))
  /\ (parsed (events r) = [] ->
      List.length (events r) = 2 /\ exists err, outcome r = inl err)
  /\ (pendingBatch (events r) = Some [] ->
      hookInvoked Before (events r) = orFalse forceActions_arg).
Proof.
  cbv zeta.
  destruct (migrate_cases settings shadow_arg forceActions_arg w)
    as [(x & -> & ->) | (parsedSettings & w' & -> & ->)].
  - repeat split; try contradiction; try discriminate.
    exists (Thrown x). reflexivity.
  - destruct (_migrate_flow parsedSettings (Some (orFalse shadow_arg))
                (Some (orFalse forceActions_arg)) w')
      as (Hp & Hc & Hcl & Hforce).
    unfold pendingBatch in *. autorewrite with trace. rewrite Hp, Hc. simpl.
    split; [reflexivity |]. split; [| split; [discriminate | exact Hforce]].
    intros cs settings' Hin. destruct (Hcl cs settings' Hin) as [-> Hcs].
    split; [reflexivity | exact Hcs].
Qed.

(** X9.  [migrate] parses once, with the [shadow] flag it was given, and
    connects only with the settings [parseSettings] resolved with, to
    their [shadowConnectionString] when [shadow] is true and to their
    [connectionString] otherwise.  If [parseSettings] rejects, nothing
    else is called and [migrate] rejects. *)
Theorem migrate_connects_with_parsed_settings settings
    (shadow_arg forceActions_arg : option bool) w :
  let r := migrate env settings shadow_arg forceActions_arg w in
  parseCalls (events r) = [(settings, orFalse shadow_arg)]
  /\ (forall cs parsedSettings,
        In (cs, parsedSettings) (clientCalls (events r)) ->
        parsed (events r) = [parsedSettings]
        /\ Some cs = (if orFalse shadow_arg
                      then shadowConnectionString parsedSettings
                      else connectionString parsedSettings))
  /\ (parsed (events r) = [] ->
      List.length (events r) = 2 /\ exists err, outcome r = inl err).
Proof.
  cbv zeta.
  destruct (migrate_flow settings shadow_arg forceActions_arg w)
    as (Hparse & Hconnect & Hstop & _).
  auto.
Qed.

Section CommandProperties.

Variable do_getSettings : option string -> Ext T (Settings T).

Lemma migrating_events (tr : list (Event T)) : migrating (map Migrating tr) = tr.
Proof. induction tr as [| e tr IH]; simpl; [| rewrite IH]; reflexivity. Qed.

(** The handler either stops at [getSettings], or goes on as [migrate]
    with the flags of [argv]. *)
Lemma handler_cases (argv : Argv.t) w :
  let r := commandHandler (migrateCommand env do_getSettings) argv w in
  hd_error (commandEvents r) = Some (SettingsCalled (Argv.config argv))
  /\ ((exists x,
         commandEvents r = [SettingsCalled (Argv.config argv);
                            SettingsThrew (Argv.config argv) (Thrown x)]
         /\ commandOutcome r = inl (Thrown x))
      \/ (exists settings w',
            let m := migrate env settings (Some (Argv.shadow argv))
                       (Some (Argv.forceActions argv)) w' in
            loaded (commandEvents r) = [settings]
            /\ migrating (commandEvents r) = events m
            /\ commandOutcome r = outcome m)).
Proof.
  assert (Hl : forall tr, loaded (map (@Migrating T) tr) = [])
    by (induction tr as [| e tr IH]; simpl; auto).
  cbn [commandHandler migrateCommand]. unfold handler. cbv zeta.
  destruct (do_getSettings (Argv.config argv) w) as [w' [x | settings]];
    cbn [commandEvents commandOutcome]; (split; [reflexivity |]).
  - left. exists x. split; reflexivity.
  - right. exists settings, w'. cbv zeta. simpl.
    fold (loaded (map (@Migrating T)
            (events (migrate env settings (Some (Argv.shadow argv))
                       (Some (Argv.forceActions argv)) w')))).
    fold (migrating (map (@Migrating T)
            (events (migrate env settings (Some (Argv.shadow argv))
                       (Some (Argv.forceActions argv)) w')))).
    rewrite Hl, migrating_events. repeat split.
Qed.

(** X10.  Without settings the command does nothing: when [getSettings]
    rejects, the handler calls neither [parseSettings] nor anything of
    [_migrate], and rejects with the error of [getSettings]. *)
Theorem command_stops_without_settings (argv : Argv.t) w :
  let r := commandHandler (migrateCommand env do_getSettings) argv w in
  loaded (commandEvents r) = [] ->
  migrating (commandEvents r) = []
  /\ exists err,
       commandEvents r = [SettingsCalled (Argv.config argv);
                          SettingsThrew (Argv.config argv) err]
       /\ commandOutcome r = inl err.
Proof.
  cbv zeta.
  destruct (handler_cases argv w)
    as (_ & [(x & -> & ->) | (settings & w' & -> & _)]).
  - intros _. split; [reflexivity |]. exists (Thrown x). split; reflexivity.
  - discriminate.
Qed.

(** X11.  The flags of the command line reach the migration: the handler
    asks [getSettings] for the file named by [argv.config]; with the
    settings it resolves with, [parseSettings] is called once, with
    [argv.shadow]; a connection is opened only with the settings parsed,
    to their shadow connection string exactly when [argv.shadow] is set;
    and when nothing is pending, the before-phase hook actions are
    invoked exactly when [argv.forceActions] is set. *)
Theorem command_flags_reach_migrate (argv : Argv.t) w settings :
  let r := commandHandler (migrateCommand env do_getSettings) argv w in
  let tr := migrating (commandEvents r) in
  In settings (loaded (commandEvents r)) ->
  hd_error (commandEvents r) = Some (SettingsCalled (Argv.config argv))
  /\ parseCalls tr = [(settings, Argv.shadow argv)]
  /\ (forall cs parsedSettings,
        In (cs, parsedSettings) (clientCalls tr) ->
        parsed tr = [parsedSettings]
        /\ Some cs = (if Argv.shadow argv
                      then shadowConnectionString parsedSettings
                      else connectionString parsedSettings))
  /\ (pendingBatch tr = Some [] ->
      hookInvoked Before tr = Argv.forceActions argv).
Proof.
  cbv zeta.
  destruct (handler_cases argv w)
    as (Hhd & [(x & -> & _) | (loadedSettings & w' & -> & -> & _)]).
  { intros []. }
  intros [<- | []]. split; [exact Hhd |].
  destruct (migrate_flow loadedSettings (Some (Argv.shadow argv))
              (Some (Argv.forceActions argv)) w')
    as (Hparse & Hconnect & _ & Hforce).
  auto.
Qed.

End CommandProperties.


(** * The status line can be read back *)

Lemma length_append (s r : string) :
  String.length (s ++ r) = String.length s + String.length r.
Proof. induction s as [| c s IH]; simpl; [| rewrite IH]; reflexivity. Qed.

Lemma append_cancel_r (s s' r : string) : (s ++ r = s' ++ r -> s = s')%string.
Proof.
  revert s'. induction s as [| c s IH]; intros [| c' s']; simpl; intros H.
  - reflexivity.
  - apply (f_equal String.length) in H. simpl in H.
    rewrite length_append in H. lia.
  - apply (f_equal String.length) in H. simpl in H.
    rewrite length_append in H. lia.
  - injection H as -> H. f_equal. exact (IH _ H).
Qed.

Lemma string_of_nat_inj n n' : string_of_nat n = string_of_nat n' -> n = n'.
Proof.
  unfold string_of_nat. intros H.
  apply DecimalNat.Unsigned.to_uint_inj.
  apply (f_equal NilEmpty.uint_of_string) in H.
  rewrite !NilEmpty.usu in H. congruence.
Qed.

(** A rendered number starts with a digit. *)
Lemma string_of_nat_digit n :
  exists c s, string_of_nat n = String c s
              /\ In (String c "")
                   ["0"; "1"; "2"; "3"; "4"; "5"; "6"; "7"; "8"; "9"].
Proof.
  unfold string_of_nat.
  assert (Hnil : Nat.to_uint n <> Decimal.Nil).
  { rewrite <- (DecimalNat.Unsigned.of_to n) at 1.
    rewrite DecimalNat.Unsigned.to_of. apply DecimalFacts.unorm_nonnil. }
  destruct (Nat.to_uint n); [contradiction | ..]; simpl;
    eexists _, _; (split; [reflexivity |]); simpl; tauto.
Qed.

(** X12.  The status line tells the outcome apart: two status lines of
    [_migrate] are equal only if they are for the same target, for
    batches of the same length and, when the batch is empty, agree on
    whether a last migration exists. *)
Theorem status_line_tells_outcome (shadow shadow' : bool)
    (batch batch' : list (Migration T)) (last last' : option (Migration T)) :
  statusLine (if shadow then "[shadow]" else "") batch last
  = statusLine (if shadow' then "[shadow]" else "") batch' last' ->
  shadow = shadow'
  /\ List.length batch = List.length batch'
  /\ (batch = [] -> (last = None <-> last' = None)).
Proof.
  unfold statusLine. intros H.
  assert (Hs : shadow = shadow')
    by (destruct shadow, shadow'; simpl in H; congruence).
  subst shadow'. split; [reflexivity |].
  assert (Hbody :
    ((if (0 <? List.length batch)%nat
      then string_of_nat (List.length batch) ++ " committed migrations executed"
      else match last with
           | Some _ => "Already up to date"
           | None => "Up to date — no committed migrations to run"
           end)
     = (if (0 <? List.length batch')%nat
        then string_of_nat (List.length batch') ++ " committed migrations executed"
        else match last' with
             | Some _ => "Already up to date"
             | None => "Up to date — no committed migrations to run"
             end))%string).
  { destruct shadow; simpl in H; injection H as H; exact H. }
  clear H.
  destruct batch as [| m batch], batch' as [| m' batch']; simpl in Hbody.
  - split; [reflexivity |]. intros _.
    destruct last, last'; split; intros; congruence || discriminate.
  - exfalso.
    destruct (string_of_nat_digit (S (List.length batch'))) as (c & s & E & D).
    simpl in *. rewrite E in Hbody. simpl in Hbody.
    destruct last; injection Hbody as Hc _; subst c;
      repeat (destruct D as [D | D]; [discriminate D |]); exact D.
  - exfalso.
    destruct (string_of_nat_digit (S (List.length batch))) as (c & s & E & D).
    simpl in *. rewrite E in Hbody. simpl in Hbody.
    destruct last'; injection Hbody as Hc _; subst c;
      repeat (destruct D as [D | D]; [discriminate D |]); exact D.
  - split; [| discriminate].
    apply append_cancel_r in Hbody. apply string_of_nat_inj in Hbody.
    exact Hbody.
Qed.

End Properties.

(** * The properties on the concrete target *)

(** C1 as stated fails: the batch [1; 2] is not empty, yet the
    after-phase hook actions are not invoked, because migration 2 fails. *)
Lemma hooks_iff_counterexample :
  let tr := events (_migrate Demo.env (Demo.settings ["make schema"] ["make dump"])
                      None None (Demo.database None [1; 2] [2])) in
  let needed := [1; 2] <> @nil nat \/ orFalse None = true in
  pendingBatch tr = Some [1; 2]
  /\ ~ ((hookInvoked Before tr = true <-> needed)
        /\ (hookInvoked After tr = true <-> needed)).
Proof.
  split; [reflexivity |].
  intros [_ [_ H]]. discriminate H. left. discriminate.
Qed.

(** C6 as stated fails: a run in which migration 2 fails logs no status
    line. *)
Lemma status_line_counterexample :
  let tr := events (_migrate Demo.env (Demo.settings ["make schema"] ["make dump"])
                      None None (Demo.database None [1; 2] [2])) in
  ~ (exists line, statusLines tr = [line]).
Proof.
  intros tr [line H]. discriminate H.
Qed.

(** C7 as stated fails: the second run also acquires and releases the
    database connection, which is neither the lock, nor a ledger read,
    nor the log line. *)
Lemma second_run_counterexample :
  let first := _migrate Demo.env (Demo.settings ["make schema"] ["make dump"])
                 None None (Demo.database None [1; 2; 3] []) in
  let second := _migrate Demo.env (Demo.settings ["make schema"] ["make dump"])
                  None (Some false) (final first) in
  pendingBatch (events second) = Some []
  /\ In (Acquired (@Session Demo.T "postgres:///app" tt)) (events second)
  /\ ~ forallb (fun e => isLock e || isLedger e || isLog e) (events second) = true.
Proof.
  split; [reflexivity |]. split.
  - simpl. auto.
  - discriminate.
Qed.

Lemma before_failure_aborts_witness :
  let r := _migrate Demo.env (Demo.settings ["exit 1"] ["make dump"])
             None None (Demo.database None [1; 2; 3] []) in
  hookFailed Before (events r) = true
  /\ attempted (events r) = []
  /\ hookInvoked After (events r) = false
  /\ exists err, hookErrors Before (events r) = [err] /\ outcome r = inl err.
Proof.
  split; [reflexivity |].
  apply (before_failure_aborts Demo.T Demo.env
           (Demo.settings ["exit 1"] ["make dump"]) None None
           (Demo.database None [1; 2; 3] [])).
  reflexivity.
Defined.

(** The runner of the concrete target keeps the contract of the spec. *)
Lemma runner_names_migration : carriesIdentity Demo.env Demo.identity.
Proof.
  intros m x (pgClient & settings & context & logSuffix & w0 & w1 & H).
  simpl in H.
  destruct (existsb (Nat.eqb m) (Demo.broken w0)); [| discriminate H].
  injection H as _ <-. reflexivity.
Qed.

Lemma migration_failure_stops_batch_witness :
  let r := _migrate Demo.env (Demo.settings ["make schema"] ["make dump"])
             (Some true) None (Demo.database None [1; 2; 3] [2]) in
  let err := @Thrown Demo.T (Demo.MigrationError 2) in
  pendingBatch (events r) = Some [1; 2; 3]
  /\ 1 <= 2
  /\ nth_error (runnerOutcomes (events r)) (2 - 1) = Some (2, Some err)
  /\ 2 <= List.length [1; 2; 3]
  /\ nth_error [1; 2; 3] (2 - 1) = Some 2
  /\ attempted (events r) = firstn 2 [1; 2; 3]
  /\ applied (events r) = firstn (2 - 1) [1; 2; 3]
  /\ hookInvoked After (events r) = false
  /\ statusLines (events r) = []
  /\ outcome r = inl err
  /\ exists x,
       err = Thrown x
       /\ raisedFor Demo.env 2 x
       /\ forall identity,
            carriesIdentity Demo.env identity -> identity x = Some 2.
Proof.
  split; [reflexivity |]. split; [lia |]. split; [reflexivity |].
  apply (migration_failure_stops_batch Demo.T Demo.env
           (Demo.settings ["make schema"] ["make dump"]) (Some true) None
           (Demo.database None [1; 2; 3] [2])
           [1; 2; 3] 2 2 (@Thrown Demo.T (Demo.MigrationError 2))).
  - reflexivity.
  - lia.
  - reflexivity.
Defined.

Lemma second_run_is_idle_witness :
  let first := _migrate Demo.env (Demo.settings ["make schema"] ["make dump"])
                 None None (Demo.database None [1; 2; 3] []) in
  let second := _migrate Demo.env (Demo.settings ["make schema"] ["make dump"])
                  None None (final first) in
  applied (events first) = [1; 2; 3]
  /\ pendingBatch (events second) = Some []
  /\ attempted (events second) = []
  /\ hookCalls (events second) = []
  /\ (exists line, statusLines (events second) = [line])
  /\ forallb (fun e => isSession e || isLock e || isLedger e || isLog e)
       (events second) = true.
Proof.
  split; [reflexivity |]. split; [reflexivity |].
  apply (second_run_is_idle Demo.T Demo.env
           (Demo.settings ["make schema"] ["make dump"]) None None None
           (Demo.database None [1; 2; 3] [])).
  - reflexivity.
  - reflexivity.
Defined.

Lemma ledger_failure_aborts_witness :
  let r := _migrate Demo.env (Demo.settings ["make schema"] ["make dump"])
             None (Some true) (Demo.database (Some 7) [1; 2; 3] []) in
  ledgerFailed (events r) = true
  /\ hookCalls (events r) = []
  /\ attempted (events r) = []
  /\ exists err, ledgerErrors (events r) = [err] /\ outcome r = inl err.
Proof.
  split; [reflexivity |].
  apply (ledger_failure_aborts Demo.T Demo.env
           (Demo.settings ["make schema"] ["make dump"]) None (Some true)
           (Demo.database (Some 7) [1; 2; 3] [])).
  reflexivity.
Defined.

(** ** The further properties on the concrete target *)

Lemma after_failure_keeps_migrations_witness :
  let r := _migrate Demo.env (Demo.settings ["make schema"] ["exit 1"])
             None None (Demo.database None [1; 2] []) in
  hookFailed After (events r) = true
  /\ applied (events r) = [1; 2]
  /\ pendingBatch (events r) = Some (applied (events r))
  /\ hookCalls (events r) = [Before; After]
  /\ statusLines (events r) = [].
Proof.
  split; [reflexivity |]. split; [reflexivity |].
  destruct (after_failure_keeps_migrations Demo.T Demo.env
              (Demo.settings ["make schema"] ["exit 1"]) None None
              (Demo.database None [1; 2] []) eq_refl)
    as (Hbatch & _ & Hcalls & _ & Hlines & _).
  repeat split; assumption.
Defined.

Lemma forced_actions_on_empty_batch_witness :
  let r := _migrate Demo.env (Demo.settings ["make schema"] ["make dump"])
             None (Some true) (Demo.database (Some 2) [1; 2] []) in
  orFalse (Some true) = true
  /\ pendingBatch (events r) = Some []
  /\ attempted (events r) = []
  /\ hookCalls (events r) = [Before; After].
Proof.
  split; [reflexivity |]. split; [reflexivity |].
  exact (forced_actions_on_empty_batch Demo.T Demo.env
           (Demo.settings ["make schema"] ["make dump"]) None (Some true)
           (Demo.database (Some 2) [1; 2] []) eq_refl eq_refl).
Defined.

Lemma no_lock_no_work_witness :
  let r := _migrate Demo.env (Demo.settings ["make schema"] ["make dump"])
             None None DemoCommand.lockedOut in
  lockHeld (events r) = false
  /\ filter isWork (events r) = []
  /\ statusLines (events r) = []
  /\ exists err, outcome r = inl err.
Proof.
  split; [reflexivity |].
  exact (no_lock_no_work Demo.T Demo.env
           (Demo.settings ["make schema"] ["make dump"]) None None
           DemoCommand.lockedOut eq_refl).
Defined.

Lemma completed_run_trace_witness :
  let settings := Demo.settings ["make schema"] ["make dump"] in
  let r := _migrate Demo.env settings (Some true) None
             (Demo.database None [1; 2] []) in
  outcome r = inr tt
  /\ exists pgClient context last batch,
       events r
       = [Called (CWithClient "postgres:///app_shadow" settings);
          Acquired (Session pgClient context);
          Called (CWithAdvisoryLock pgClient);
          Acquired (AdvisoryLock pgClient)]
         ++ ledgerRead settings pgClient last batch
         ++ ranHook settings true false Before batch
         ++ ranAll settings true pgClient context batch
         ++ ranHook settings true false After batch
         ++ [Called (CLoggerInfo (logger settings)
                       (statusLine "[shadow]" batch last));
             Returned (CLoggerInfo (logger settings)
                         (statusLine "[shadow]" batch last))
               VUndefined;
             Released (AdvisoryLock pgClient);
             Returned (CWithAdvisoryLock pgClient) VUndefined;
             Released (Session pgClient context);
             Returned (CWithClient "postgres:///app_shadow" settings)
               VUndefined].
Proof.
  split; [reflexivity |].
  exact (completed_run_trace Demo.T Demo.env
           (Demo.settings ["make schema"] ["make dump"]) (Some true) None
           (Demo.database None [1; 2] []) eq_refl).
Defined.

Lemma logger_failure_after_the_fact_witness :
  let r := _migrate Demo.env DemoCommand.muted None None
             (Demo.database None [1] []) in
  let err := @Thrown Demo.T Demo.LoggerClosed in
  In err (logErrors (events r))
  /\ applied (events r) = [1]
  /\ pendingBatch (events r) = Some (applied (events r))
  /\ hookCalls (events r) = [Before; After]
  /\ outcome r = inl err.
Proof.
  split; [left; reflexivity |]. split; [reflexivity |].
  destruct (logger_failure_after_the_fact Demo.T Demo.env DemoCommand.muted
              None None (Demo.database None [1] [])
              (@Thrown Demo.T Demo.LoggerClosed) (or_introl eq_refl))
    as (Hbatch & _ & Hcalls & _ & _ & _ & _ & Hout).
  repeat split; assumption.
Defined.

Lemma command_stops_without_settings_witness :
  let r := commandHandler (migrateCommand Demo.env DemoCommand.getSettings)
             (DemoCommand.argv (Some "missing.json") false false)
             (Demo.database None [1; 2] []) in
  loaded (commandEvents r) = []
  /\ migrating (commandEvents r) = []
  /\ exists err,
       commandEvents r = [SettingsCalled (Some "missing.json");
                          SettingsThrew (Some "missing.json") err]
       /\ commandOutcome r = inl err.
Proof.
  split; [reflexivity |].
  exact (command_stops_without_settings Demo.T Demo.env DemoCommand.getSettings
           (DemoCommand.argv (Some "missing.json") false false)
           (Demo.database None [1; 2] []) eq_refl).
Defined.

Lemma command_flags_reach_migrate_witness :
  let r := commandHandler (migrateCommand Demo.env DemoCommand.getSettings)
             (DemoCommand.argv (Some "hooks") true false)
             (Demo.database (Some 2) [1; 2] []) in
  let settings : Settings Demo.T :=
    (Some "postgres:///app", Some "postgres:///app_shadow",
     (["sh hooks"], ["make dump"])) in
  let tr := migrating (commandEvents r) in
  In settings (loaded (commandEvents r))
  /\ parseCalls tr = [(settings, true)]
  /\ clientCalls tr
     = [("postgres:///app_shadow", Demo.settings ["sh hooks"] ["make dump"])]
  /\ pendingBatch tr = Some []
  /\ hookInvoked Before tr = false.
Proof.
  split; [left; reflexivity |].
  destruct (command_flags_reach_migrate Demo.T Demo.env DemoCommand.getSettings
              (DemoCommand.argv (Some "hooks") true false)
              (Demo.database (Some 2) [1; 2] [])
              (Some "postgres:///app", Some "postgres:///app_shadow",
               (["sh hooks"], ["make dump"]))
              (or_introl eq_refl))
    as (_ & Hparse & _ & Hforce).
  split; [exact Hparse |]. split; [reflexivity |]. split; [reflexivity |].
  exact (Hforce eq_refl).
Defined.

Lemma status_line_tells_outcome_witness :
  @statusLine Demo.T "[shadow]" [1; 2] None
  = @statusLine Demo.T "[shadow]" [5; 6] (Some 4)
  /\ true = true
  /\ List.length [1; 2] = List.length [5; 6]
  /\ ([1; 2] = @nil nat -> (@None nat = None <-> Some 4 = None)).
Proof.
  split; [reflexivity |].
  exact (status_line_tells_outcome Demo.T true true [1; 2] [5; 6] None (Some 4)
           eq_refl).
Defined.
